(** * TodoApp: the todo store, its filter and its pagination

    A shallow embedding of [static/js/todo.js] (class [TodoApp]) and the
    properties its specification states about it.

    Conventions of the embedding:
    - JavaScript strings are sequences of UTF-16 code units; the model keeps
      the code units below 256 (the Latin-1 range), one per [ascii], which is
      closed under [trim], [toLowerCase], [includes] and comparison.
    - JavaScript numbers that hold array lengths, ids and page numbers are
      integers ([Z]); the one division of the program, in the page count, is
      taken in [Q] before [Math.ceil] rounds it.
    - An [async] method is a computation in a resumption monad: it runs up to
      an effect (an [axios] request, [confirm], the clock, the random source)
      and its continuation is resumed with the answer on the store as it is
      at that moment. *)

From Stdlib Require Import ZArith QArith Qround String Ascii Bool Lia.
From Stdlib Require DecimalString.
From stdpp Require Import base tactics option list.

#[local] Close Scope Q_scope.
#[local] Open Scope string_scope.
#[local] Open Scope Z_scope.

(** ** JavaScript string primitives *)

Module JsString.

(** The code units [String.prototype.trim] removes, among those below 256:
    TAB, LF, VT, FF, CR, SP and NBSP. *)
Definition isWhiteSpace (c : ascii) : bool :=
  let n := N_of_ascii c in
  ((9 <=? n) && (n <=? 13) || (n =? 32) || (n =? 160))%N.

Fixpoint trimStart (s : string) : string :=
  match s with
  | EmptyString => EmptyString
  | String c r => if isWhiteSpace c then trimStart r else s
  end.

Fixpoint trimEnd (s : string) : string :=
  match s with
  | EmptyString => EmptyString
  | String c r =>
      match trimEnd r with
      | EmptyString =>
          if isWhiteSpace c then EmptyString else String c EmptyString
      | r' => String c r'
      end
  end.

(** [s.trim()] *)
Definition trim (s : string) : string := trimEnd (trimStart s).

(** Lower-case mapping of one code unit: A..Z, and the upper-case letters of
    Latin-1 (U+00C0..U+00DE but U+00D7), move up by 32. *)
Definition lowerChar (c : ascii) : ascii :=
  let n := N_of_ascii c in
  if ((65 <=? n) && (n <=? 90)
      || (192 <=? n) && (n <=? 222) && negb (n =? 215))%N
  then ascii_of_N (n + 32) else c.

(** [s.toLowerCase()] *)
Fixpoint toLowerCase (s : string) : string :=
  match s with
  | EmptyString => EmptyString
  | String c r => String (lowerChar c) (toLowerCase r)
  end.

(** [s.includes(sub)] *)
Fixpoint includes (s sub : string) : bool :=
  if String.prefix sub s then true
  else match s with
       | EmptyString => false
       | String _ r => includes r sub
       end.

(** [a >= b] and [a <= b] on two strings: code-unit lexicographic order. *)
Definition ge (a b : string) : bool := negb (String.ltb a b).
Definition le (a b : string) : bool := negb (String.ltb b a).

(** Truthiness of a string: only the empty string is falsy. *)
Definition truthy (s : string) : bool :=
  match s with EmptyString => false | _ => true end.

(** Value of a digit in radix [radix], if it is one. *)
Definition digitValue (radix : N) (c : ascii) : option Z :=
  let n := N_of_ascii c in
  let v := (if (48 <=? n) && (n <=? 57) then Some (n - 48)
            else if (97 <=? n) && (n <=? 122) then Some (n - 87)
            else if (65 <=? n) && (n <=? 90) then Some (n - 55)
            else None)%N in
  match v with
  | Some d => if (d <? radix)%N then Some (Z.of_N d) else None
  | None => None
  end.

(** The longest prefix of digits, accumulated from [acc]; [seen] tells
    whether a digit was read. *)
Fixpoint digits (radix : N) (s : string) (acc : Z) (seen : bool) : option Z :=
  match s with
  | EmptyString => if seen then Some acc else None
  | String c r =>
      match digitValue radix c with
      | Some d => digits radix r (acc * Z.of_N radix + d) true
      | None => if seen then Some acc else None
      end
  end.

(** [parseInt(s)] with no radix: leading white space, a sign, an optional
    [0x]/[0X] prefix that selects radix 16, then digits. [None] is [NaN].
    The value is the exact integer; JavaScript gives the nearest double,
    which is the same number up to [2^53]. The program only puts it in the
    body of the add. *)
Definition parseInt (s : string) : option Z :=
  let s1 := trimStart s in
  let '(sign, s2) :=
    match s1 with
    | String "-" r => (-1, r)
    | String "+" r => (1, r)
    | _ => (1, s1)
    end in
  match s2 with
  | String "0" (String x r) =>
      if (Ascii.eqb x "x" || Ascii.eqb x "X")%char
      then option_map (Z.mul sign) (digits 16 r 0 false)
      else option_map (Z.mul sign) (digits 10 s2 0 false)
  | _ => option_map (Z.mul sign) (digits 10 s2 0 false)
  end.

End JsString.

(** ** Data model *)

(** A todo of the store: [{ id, title, completed, userId, createdAt }]. *)
Module Todo.
Record t : Type := mk
  { id : Z; title : string; completed : bool; userId : Z; createdAt : string }.
End Todo.

(** A todo as [GET /todos] lists it: [{ id, todo, completed, userId }]. *)
Module RemoteTodo.
Record t : Type := mk
  { id : Z; todo : string; completed : bool; userId : Z }.
End RemoteTodo.

(** The body of [POST /todos/add]. [userId] is what [parseInt] gave, [None]
    for [NaN]. *)
Module NewTodo.
Record t : Type := mk
  { todo : string; completed : bool; userId : option Z }.
End NewTodo.

(** The data of the reply to [POST /todos/add]. The program guards [id] and
    [todo] with [||], so they may be missing; [completed] and [userId] are
    taken as the service gives them. *)
Module Added.
Record t : Type := mk
  { id : option Z; todo : option string; completed : bool; userId : Z }.
End Added.

(** [error.message] of a rejected request. *)
Definition Error : Type := string.

(** The text inputs of the page that the program reads. *)
Record Inputs : Type := mkInputs
  { searchInput : string; fromDate : string; toDate : string;
    todoTitle : string; todoUserId : string }.

(** The loading indicator and the two alerts: whether each is shown (its
    [d-none] class is absent) and the text of its message. *)
Record Alerts : Type := mkAlerts
  { loadingIndicator : bool;
    errorAlert : bool; errorMessage : string;
    successAlert : bool; successMessage : string }.

(** The fields of the [TodoApp] instance, the part of the document it reads
    or reports through, and the console. The elements that are only written
    ([todoList], [pagination], [pageInfo], the statistics) are not part of
    the state. *)
Record State : Type := mkState
  { todos : list Todo.t;
    filteredTodos : list Todo.t;
    currentPage : Z;
    inputs : Inputs;
    alerts : Alerts;
    console : list string }.

Definition todosPerPage : Z := 10.
Definition apiUrl : string := "https://dummyjson.com/todos".

Definition set_todos (v : list Todo.t) (s : State) : State :=
  mkState v (filteredTodos s) (currentPage s) (inputs s) (alerts s) (console s).
Definition set_filteredTodos (v : list Todo.t) (s : State) : State :=
  mkState (todos s) v (currentPage s) (inputs s) (alerts s) (console s).
Definition set_currentPage (v : Z) (s : State) : State :=
  mkState (todos s) (filteredTodos s) v (inputs s) (alerts s) (console s).
Definition set_inputs (v : Inputs) (s : State) : State :=
  mkState (todos s) (filteredTodos s) (currentPage s) v (alerts s) (console s).
Definition set_alerts (v : Alerts) (s : State) : State :=
  mkState (todos s) (filteredTodos s) (currentPage s) (inputs s) v (console s).
Definition log (line : string) (s : State) : State :=
  mkState (todos s) (filteredTodos s) (currentPage s) (inputs s) (alerts s)
          (console s ++ [line]).

(** The ids of the store, in order. *)
Definition ids (s : State) : list Z := Todo.id <$> todos s.

(** ** Effects and the resumption monad *)

(** What a method asks of its environment, indexed by the type of the answer.
    The four [axios] calls are awaited; [confirm], the clock and the random
    source answer at once. *)
Inductive Effect : Type -> Type :=
| AxiosGet (url : string) : Effect (Error + list RemoteTodo.t)
| AxiosPost (url : string) (body : NewTodo.t) : Effect (Error + Added.t)
| AxiosPut (url : string) (completed : bool) : Effect (Error + unit)
| AxiosDelete (url : string) : Effect (Error + unit)
| Confirm (message : string) : Effect bool
| Today : Effect string
| RandomDate : Effect string.

Definition awaited {X} (eff : Effect X) : bool :=
  match eff with
  | AxiosGet _ | AxiosPost _ _ | AxiosPut _ _ | AxiosDelete _ => true
  | Confirm _ | Today | RandomDate => false
  end.

(** The result of running a method from a state: it returned, it threw, or it
    stands at an effect with the rest of its body, which will run on the
    state of that later moment. *)
Inductive Res (A : Type) : Type :=
| Done (s : State) (a : A)
| Raise (s : State) (e : Error)
| Call {X : Type} (s : State) (eff : Effect X) (k : X -> State -> Res A).

Arguments Done {A} s a.
Arguments Raise {A} s e.
Arguments Call {A X} s eff k.

Definition M (A : Type) : Type := State -> Res A.

Fixpoint bindRes {A B} (r : Res A) (f : A -> M B) : Res B :=
  match r with
  | Done s a => f a s
  | Raise s e => Raise s e
  | Call s eff k => Call s eff (fun x s' => bindRes (k x s') f)
  end.

(** [try { r } catch (error) { h error }] *)
Fixpoint catchRes {A} (r : Res A) (h : Error -> M A) : Res A :=
  match r with
  | Done s a => Done s a
  | Raise s e => h e s
  | Call s eff k => Call s eff (fun x s' => catchRes (k x s') h)
  end.

#[global] Instance M_ret : MRet M := fun A a s => Done s a.
#[global] Instance M_bind : MBind M := fun A B f m s => bindRes (m s) f.

Definition tryCatch {A} (m : M A) (h : Error -> M A) : M A :=
  fun s => catchRes (m s) h.
Definition throw {A} (e : Error) : M A := fun s => Raise s e.
Definition gets {A} (f : State -> A) : M A := fun s => Done s (f s).
Definition modify (f : State -> State) : M unit := fun s => Done (f s) tt.
Definition call {X} (eff : Effect X) : M X :=
  fun s => Call s eff (fun x s' => Done s' x).

(** [await request]: the answer is the response, or the rejection is thrown. *)
Definition await {X} (eff : Effect (Error + X)) : M X :=
  r ← call eff;
  match r with
  | inl e => throw e
  | inr x => mret x
  end.

(** [xs.map(f)] for a callback with effects, in index order. *)
Fixpoint mapM {A B} (f : A -> M B) (xs : list A) : M (list B) :=
  match xs with
  | [] => mret []
  | x :: r => y ← f x; ys ← mapM f r; mret (y :: ys)
  end.

(** ** The methods of [TodoApp] *)

(** [`${n}`] for an integer: all its decimal digits, as JavaScript writes
    the integers below [10^21] in magnitude; from there on JavaScript writes
    an exponent, which the model does not. The text only goes into the
    address of a request. *)
Definition numberToString (n : Z) : string :=
  DecimalString.NilZero.string_of_int (Z.to_int n).

Definition with_alerts (f : Alerts -> Alerts) (s : State) : State :=
  set_alerts (f (alerts s)) s.

Definition hideError : State -> State :=
  with_alerts (fun a =>
    mkAlerts (loadingIndicator a) false (errorMessage a)
             (successAlert a) (successMessage a)).

Definition hideSuccess : State -> State :=
  with_alerts (fun a =>
    mkAlerts (loadingIndicator a) (errorAlert a) (errorMessage a)
             false (successMessage a)).

Definition showLoading (s : State) : State :=
  hideSuccess (hideError (with_alerts (fun a =>
    mkAlerts true (errorAlert a) (errorMessage a)
             (successAlert a) (successMessage a)) s)).

Definition hideLoading : State -> State :=
  with_alerts (fun a =>
    mkAlerts false (errorAlert a) (errorMessage a)
             (successAlert a) (successMessage a)).

Definition showError (message : string) (s : State) : State :=
  hideSuccess (with_alerts (fun a =>
    mkAlerts (loadingIndicator a) true message
             (successAlert a) (successMessage a)) s).

(** The timer that hides the message three seconds later is the event
    [TimerHideSuccess] of the page, below. *)
Definition showSuccess (message : string) (s : State) : State :=
  hideError (with_alerts (fun a =>
    mkAlerts (loadingIndicator a) (errorAlert a) (errorMessage a)
             true message) s).

(** The callback of [this.todos.filter] in [applyFilters]. *)
Definition matchesFilters (searchTerm fromDate toDate : string)
    (todo : Todo.t) : bool :=
  let matchesSearch :=
    negb (JsString.truthy searchTerm)
    || JsString.includes (JsString.toLowerCase (Todo.title todo)) searchTerm in
  let todoDate := Todo.createdAt todo in
  let matchesFromDate :=
    negb (JsString.truthy fromDate) || JsString.ge todoDate fromDate in
  let matchesToDate :=
    negb (JsString.truthy toDate) || JsString.le todoDate toDate in
  matchesSearch && matchesFromDate && matchesToDate.

Definition applyFilters (s : State) : State :=
  let searchTerm := JsString.toLowerCase (searchInput (inputs s)) in
  let fromDate := fromDate (inputs s) in
  let toDate := toDate (inputs s) in
  set_currentPage 1
    (set_filteredTodos
       (List.filter (matchesFilters searchTerm fromDate toDate) (todos s)) s).

Definition clearFilters (s : State) : State :=
  let i := inputs s in
  applyFilters (set_inputs (mkInputs "" "" "" (todoTitle i) (todoUserId i)) s).

(** [xs.slice(start, end)] *)
Definition slice {A} (xs : list A) (start stop : Z) : list A :=
  let len := Z.of_nat (length xs) in
  let from := if start <? 0 then Z.max (len + start) 0 else Z.min start len in
  let to := if stop <? 0 then Z.max (len + stop) 0 else Z.min stop len in
  take (Z.to_nat (to - from)) (drop (Z.to_nat from) xs).

Definition getPaginatedTodos (s : State) : list Todo.t :=
  let startIndex := (currentPage s - 1) * todosPerPage in
  let endIndex := startIndex + todosPerPage in
  slice (filteredTodos s) startIndex endIndex.

(** [Math.ceil(this.filteredTodos.length / this.todosPerPage)], the constant
    [totalPages] of [renderPagination] and of [goToPage]. The quotient is
    exact here; the floating-point quotient of an array length by ten has the
    same ceiling. *)
Definition totalPages (s : State) : Z :=
  Qceiling (inject_Z (Z.of_nat (length (filteredTodos s)))
            / inject_Z todosPerPage)%Q.

(** What [renderPagination] writes: the page controls and the range label,
    nothing when there is at most one page. *)
Inductive PageItem : Type :=
| Previous (disabled : bool) (target : Z)
| PageLink (page : Z) (active : bool)
| Ellipsis
| Next (disabled : bool) (target : Z).

Definition renderPagination (s : State)
    : option (list PageItem * (Z * Z * Z)) :=
  let totalPages := totalPages s in
  if totalPages <=? 1 then None
  else
    let numbers : list PageItem :=
      seqZ 1 totalPages ≫= (fun i =>
        if (i =? 1) || (i =? totalPages) || (Z.abs (i - currentPage s) <=? 2)
        then [PageLink i (i =? currentPage s)]
        else if Z.abs (i - currentPage s) =? 3 then [Ellipsis] else []) in
    let startItem := (currentPage s - 1) * todosPerPage + 1 in
    let endItem := Z.min (currentPage s * todosPerPage)
                         (Z.of_nat (length (filteredTodos s))) in
    Some (([Previous (currentPage s =? 1) (currentPage s - 1)]
             ++ numbers
             ++ [Next (currentPage s =? totalPages) (currentPage s + 1)])%list,
          (startItem, endItem, Z.of_nat (length (filteredTodos s)))).

Definition goToPage (page : Z) (s : State) : State :=
  let totalPages := totalPages s in
  if (page <? 1) || (totalPages <? page) then s
  else set_currentPage page s.

Definition generateRandomDate : M string := call RandomDate.

(** The todo that the callback of [map] in [loadTodos] builds from a listed
    todo and a random date. *)
Definition loadedTodo (todo : RemoteTodo.t) (createdAt : string) : Todo.t :=
  Todo.mk (RemoteTodo.id todo) (RemoteTodo.todo todo)
          (RemoteTodo.completed todo) (RemoteTodo.userId todo) createdAt.

Definition loadTodos : M unit :=
  tryCatch
    (modify showLoading;;
     response ← await (AxiosGet apiUrl);
     todos ← mapM (fun todo =>
                     createdAt ← generateRandomDate;
                     mret (loadedTodo todo createdAt))
                  response;
     modify (set_todos todos);;
     modify applyFilters;;
     modify hideLoading)
    (fun error =>
       modify hideLoading;;
       modify (showError ("Failed to load todos: " ++ error));;
       modify (log ("Error loading todos: " ++ error))).

(** [a || b] on a number that may be missing: zero is falsy too. *)
Definition orNumber (a : option Z) (b : Z) : Z :=
  match a with
  | Some n => if n =? 0 then b else n
  | None => b
  end.

(** [a || b] on a string that may be missing. *)
Definition orString (a : option string) (b : string) : string :=
  match a with
  | Some t => if JsString.truthy t then t else b
  | None => b
  end.

(** [addedTodo] of [addTodo]: the todo built from the reply, the length of
    the store at that moment, the trimmed title and the date of the day. *)
Definition addedTodo (data : Added.t) (len : nat) (title today : string)
    : Todo.t :=
  Todo.mk (orNumber (Added.id data) (Z.of_nat len + 1))
          (orString (Added.todo data) title)
          (Added.completed data)
          (Added.userId data)
          today.

(** [form.reset()] and [todoUserId.value = '1']: the title field has no
    default value in the page. *)
Definition resetForm (s : State) : State :=
  let i := inputs s in
  set_inputs (mkInputs (searchInput i) (fromDate i) (toDate i) "" "1") s.

Definition addTodo : M unit :=
  tryCatch
    (title ← gets (fun s => JsString.trim (todoTitle (inputs s)));
     userId ← gets (fun s => JsString.parseInt (todoUserId (inputs s)));
     if negb (JsString.truthy title)
     then modify (showError "Please enter a task title")
     else
       modify showLoading;;
       let newTodo := NewTodo.mk title false userId in
       response ← await (AxiosPost (apiUrl ++ "/add") newTodo);
       len ← gets (fun s => length (todos s));
       today ← call Today;
       modify (fun s =>
                 set_todos (addedTodo response len title today :: todos s) s);;
       modify resetForm;;
       modify applyFilters;;
       modify hideLoading;;
       modify (showSuccess "Todo added successfully!"))
    (fun error =>
       modify hideLoading;;
       modify (showError ("Failed to add todo: " ++ error));;
       modify (log ("Error adding todo: " ++ error))).

(** [{ ...todo, completed: !todo.completed }] *)
Definition toggled (todo : Todo.t) : Todo.t :=
  Todo.mk (Todo.id todo) (Todo.title todo) (negb (Todo.completed todo))
          (Todo.userId todo) (Todo.createdAt todo).

(** [findIndex] and the read of [this.todos[todoIndex]] are one [list_find],
    which gives the first index with the id and the todo there. *)
Definition toggleTodo (todoId : Z) : M unit :=
  tryCatch
    (found ← gets (fun s =>
                     list_find (fun todo => Todo.id todo = todoId) (todos s));
     match found with
     | None => mret tt
     | Some (todoIndex, todo) =>
         let updatedTodo := toggled todo in
         modify (fun s =>
                   set_todos (<[todoIndex := updatedTodo]> (todos s)) s);;
         modify applyFilters;;
         tryCatch
           (await (AxiosPut (apiUrl ++ "/" ++ numberToString todoId)
                            (Todo.completed updatedTodo));;
            modify (showSuccess
                      ("Todo "
                       ++ (if Todo.completed updatedTodo
                           then "completed" else "marked as pending")
                       ++ "!")))
           (fun error =>
              modify (log ("Server update failed, keeping local change: "
                           ++ error)))
     end)
    (fun error =>
       modify (showError ("Failed to update todo: " ++ error));;
       modify (log ("Error updating todo: " ++ error))).

Definition deleteTodo (todoId : Z) : M unit :=
  tryCatch
    (confirmed ← call (Confirm "Are you sure you want to delete this todo?");
     if negb confirmed then mret tt
     else
       modify (fun s =>
                 set_todos (List.filter
                              (fun todo => negb (Todo.id todo =? todoId))
                              (todos s)) s);;
       modify applyFilters;;
       tryCatch
         (await (AxiosDelete (apiUrl ++ "/" ++ numberToString todoId));;
          modify (showSuccess "Todo deleted successfully!"))
         (fun error =>
            modify (log ("Server delete failed, keeping local change: "
                         ++ error))))
    (fun error =>
       modify (showError ("Failed to delete todo: " ++ error));;
       modify (log ("Error deleting todo: " ++ error))).

(** ** Running a method *)

(** The environment of one run: the answer to the [n]-th effect. *)
Definition World : Type := nat -> forall X, Effect X -> X.

(** A run with nothing in between: every effect is answered on the state the
    method left. The result is the last state and the value or the error. *)
Fixpoint run {A} (w : World) (n : nat) (r : Res A) : State * (A + Error) :=
  match r with
  | Done s a => (s, inl a)
  | Raise s e => (s, inr e)
  | Call s eff k => run w (S n) (k (w n _ eff) s)
  end.

(** [post I Q r]: every run of [r] ends in a state and a result that satisfy
    [Q], and shows only states that satisfy [I], as long as the states its
    continuations are resumed on satisfy [I]. *)
Fixpoint post {A} (I : State -> Prop) (Q : State -> A + Error -> Prop)
    (r : Res A) : Prop :=
  match r with
  | Done s a => Q s (inl a)
  | Raise s e => Q s (inr e)
  | Call s _ k => I s /\ forall x s', I s' -> post I Q (k x s')
  end.

(** [always P r]: [P] is kept by [r], whatever happens in between that keeps
    it too. *)
Definition always {A} (P : State -> Prop) (r : Res A) : Prop :=
  post P (fun s _ => P s) r.

(** [finally Q r]: every run of [r] ends in [Q], on whatever states it is
    resumed. *)
Definition finally {A} (Q : State -> A + Error -> Prop) (r : Res A) : Prop :=
  post (fun _ => True) Q r.

(** [returns r]: no run of [r] ends in an error. *)
Definition returns {A} (r : Res A) : Prop :=
  finally (fun _ o => exists a, o = inl a) r.

(** ** The page: events, pending requests, reachable states *)

(** What the user and the timer do. The three filter inputs fire their
    handler with the new value; the two fields of the form fire none. *)
Inductive Event : Type :=
| Submit
| SearchTyped (value : string)
| FromDateChanged (value : string)
| ToDateChanged (value : string)
| ClearFiltersClicked
| RefreshClicked
| ToggleChanged (todoId : Z)
| DeleteClicked (todoId : Z)
| PageClicked (page : Z)
| TitleTyped (value : string)
| UserIdTyped (value : string)
| TimerHideSuccess.

Definition handle (ev : Event) : M unit :=
  match ev with
  | Submit => addTodo
  | SearchTyped v =>
      modify (fun s =>
        let i := inputs s in
        set_inputs (mkInputs v (fromDate i) (toDate i)
                             (todoTitle i) (todoUserId i)) s);;
      modify applyFilters
  | FromDateChanged v =>
      modify (fun s =>
        let i := inputs s in
        set_inputs (mkInputs (searchInput i) v (toDate i)
                             (todoTitle i) (todoUserId i)) s);;
      modify applyFilters
  | ToDateChanged v =>
      modify (fun s =>
        let i := inputs s in
        set_inputs (mkInputs (searchInput i) (fromDate i) v
                             (todoTitle i) (todoUserId i)) s);;
      modify applyFilters
  | ClearFiltersClicked => modify clearFilters
  | RefreshClicked => loadTodos
  | ToggleChanged todoId => toggleTodo todoId
  | DeleteClicked todoId => deleteTodo todoId
  | PageClicked page => modify (goToPage page)
  | TitleTyped v =>
      modify (fun s =>
        let i := inputs s in
        set_inputs (mkInputs (searchInput i) (fromDate i) (toDate i)
                             v (todoUserId i)) s)
  | UserIdTyped v =>
      modify (fun s =>
        let i := inputs s in
        set_inputs (mkInputs (searchInput i) (fromDate i) (toDate i)
                             (todoTitle i) v) s)
  | TimerHideSuccess => modify hideSuccess
  end.

(** [new TodoApp()] on a freshly loaded document: the fields, then [init],
    whose [loadTodos] starts the first request. *)
Definition newTodoApp (i : Inputs) (a : Alerts) : Res unit :=
  loadTodos (mkState [] [] 1 i a []).

(** A request in flight and the rest of the method that awaits it. *)
Inductive Pending : Type :=
| Pend {X : Type} (eff : Effect X) (k : X -> State -> Res unit).

Record Page : Type := mkPage { st : State; pending : list Pending }.

(** [settles pend r p]: the run [r] goes on, its immediate effects answered in
    any way, until it ends or awaits a request, and leaves the page [p]. An
    error that reaches the top is an unhandled rejection: the state stays. *)
Inductive settles (pend : list Pending) : Res unit -> Page -> Prop :=
| settles_done s : settles pend (Done s tt) (mkPage s pend)
| settles_raise s e : settles pend (Raise s e) (mkPage s pend)
| settles_now X (eff : Effect X) s k x p :
    awaited eff = false -> settles pend (k x s) p ->
    settles pend (Call s eff k) p
| settles_await X (eff : Effect X) s k :
    awaited eff = true ->
    settles pend (Call s eff k) (mkPage s (Pend eff k :: pend)).

(** The pages the program can be in: after construction, after an event,
    after any pending request was answered, in any order. *)
Inductive Reachable : Page -> Prop :=
| reach_new i a p :
    settles [] (newTodoApp i a) p -> Reachable p
| reach_event p ev p' :
    Reachable p -> settles (pending p) (handle ev (st p)) p' -> Reachable p'
| reach_answer p l1 X (eff : Effect X) k l2 x p' :
    Reachable p -> pending p = (l1 ++ Pend eff k :: l2)%list ->
    settles (l1 ++ l2)%list (k x (st p)) p' -> Reachable p'.

(** [keeps P pd]: the rest of the method that awaits [pd] keeps [P]. *)
Definition keeps (P : State -> Prop) (pd : Pending) : Prop :=
  match pd with
  | Pend eff k => forall x s', P s' -> always P (k x s')
  end.

(** The page a run leaves when it stops at its first effect, or ends. *)
Definition suspended (pend : list Pending) (r : Res unit) : Page :=
  match r with
  | Done s _ | Raise s _ => mkPage s pend
  | Call s eff k => mkPage s (Pend eff k :: pend)
  end.

(** ** The notions of the specification *)

(** [selects P T F]: [F] is the ordered sublist of [T] made of the elements
    that satisfy [P]. *)
Inductive selects {A} (P : A -> Prop) : list A -> list A -> Prop :=
| selects_nil : selects P [] []
| selects_keep x T F : P x -> selects P T F -> selects P (x :: T) (x :: F)
| selects_skip x T F : ~ P x -> selects P T F -> selects P (x :: T) F.

(** A capital letter among the code units below 256: A to Z, and the
    capitals of Latin-1, U+00C0 to U+00DE without the multiplication sign
    U+00D7. The small letter of a capital stands 32 places after it. *)
Definition isCapital (c : ascii) : Prop :=
  let n := N_of_ascii c in
  (65 <= n <= 90 \/ 192 <= n <= 222 /\ n <> 215)%N.

(** Two code units are the same letter up to case: the same code unit, or a
    capital and its small letter, either way round. *)
Inductive sameLetter : ascii -> ascii -> Prop :=
| sameLetter_same c : sameLetter c c
| sameLetter_small c d :
    isCapital c -> (N_of_ascii d = N_of_ascii c + 32)%N -> sameLetter c d
| sameLetter_capital c d :
    isCapital d -> (N_of_ascii c = N_of_ascii d + 32)%N -> sameLetter c d.

(** Two texts are the same up to case: of one length, and the same letter up
    to case at every place. *)
Inductive sameIgnoringCase : string -> string -> Prop :=
| sameIgnoringCase_empty : sameIgnoringCase "" ""
| sameIgnoringCase_letter c d a b :
    sameLetter c d -> sameIgnoringCase a b ->
    sameIgnoringCase (String c a) (String d b).

(** Case-insensitive substring match of the search text against a title. *)
Definition matchesSearch (search title : string) : Prop :=
  exists before part after,
    title = before ++ part ++ after /\ sameIgnoringCase part search.

(** Lexicographic order of two strings by code unit, the order of ISO dates. *)
Inductive lexLe : string -> string -> Prop :=
| lexLe_empty b : lexLe "" b
| lexLe_less c d a b :
    (N_of_ascii c < N_of_ascii d)%N -> lexLe (String c a) (String d b)
| lexLe_same c a b : lexLe a b -> lexLe (String c a) (String c b).

(** The text of a calendar day, [YYYY-MM-DD], as the date inputs and
    [toISOString] write it for the years up to 9999. *)
Definition isoDigit (n : N) : ascii := ascii_of_N (48 + n).

Definition isoTwoDigits (n : N) (rest : string) : string :=
  String (isoDigit (n / 10)) (String (isoDigit (n mod 10)) rest).

Definition isoDate (y m d : N) : string :=
  isoTwoDigits (y / 100) (isoTwoDigits (y mod 100)
    (String "-" (isoTwoDigits m (String "-" (isoTwoDigits d ""))))).

(** The order of calendar days: the first is the second or an earlier day. *)
Definition dateLe (y m d y' m' d' : N) : Prop :=
  (y < y' \/ y = y' /\ (m < m' \/ m = m' /\ d <= d'))%N.

(** A bound on the date is inclusive, and vacuous when the field is empty. *)
Definition notBefore (fromDate : string) (todo : Todo.t) : Prop :=
  fromDate = "" \/ lexLe fromDate (Todo.createdAt todo).

Definition notAfter (toDate : string) (todo : Todo.t) : Prop :=
  toDate = "" \/ lexLe (Todo.createdAt todo) toDate.

(** The three predicates of the filter together. *)
Definition passes (search fromDate toDate : string) (todo : Todo.t) : Prop :=
  matchesSearch search (Todo.title todo)
  /\ notBefore fromDate todo /\ notAfter toDate todo.

(** [isCeiling n p c]: [c] is [ceil(n / p)], for a positive [p]. *)
Definition isCeiling (n p c : Z) : Prop := p * (c - 1) < n <= p * c.

(** The page count as the specification words it: [ceil(n / p)], and 1 at
    least. *)
Definition isPageCount (n c : Z) : Prop :=
  exists q, isCeiling n todosPerPage q /\ c = Z.max 1 q.

(** The page count of the specification for a state, [ceil(n / 10)] and 1 at
    least, and its invariant: the current page is in [[1, pageCount]]. *)
Definition pageCount (s : State) : Z := Z.max 1 (totalPages s).

Definition pageInRange (s : State) : Prop :=
  1 <= currentPage s <= pageCount s.

(** The ids of the store are pairwise distinct. *)
Definition uniqueIds (s : State) : Prop := NoDup (ids s).

(** [ValidationError]: the method ended, without an effect, on the alert that
    asks for a title. *)
Definition validationError (r : Res unit) : Prop :=
  exists s, r = Done s tt
            /\ errorAlert (alerts s) = true
            /\ errorMessage (alerts s) = "Please enter a task title".

(** [RemoteError] of the add: the alert reports the failure of the request. *)
Definition remoteError (e : Error) (s : State) : Prop :=
  errorAlert (alerts s) = true
  /\ errorMessage (alerts s) = "Failed to add todo: " ++ e.

(** The todos that [loadTodos] builds from the list of the service: one for
    each listed todo, in order, with its fields and some date. *)
Definition loadedFrom (listed : list RemoteTodo.t) (built : list Todo.t)
    : Prop :=
  Forall2 (fun todo t => exists date, t = loadedTodo todo date) listed built.

(** The reply to an add echoes what was submitted: the title, if it carries
    one, and the completed flag. *)
Definition echoes (body : NewTodo.t) (data : Added.t) : Prop :=
  (Added.todo data = Some (NewTodo.todo body) \/ Added.todo data = None)
  /\ Added.completed data = NewTodo.completed body.

(** The body that [addTodo] submits from a state. *)
Definition submitted (s : State) : NewTodo.t :=
  NewTodo.mk (JsString.trim (todoTitle (inputs s))) false
             (JsString.parseInt (todoUserId (inputs s))).

(** ** Sample data *)

Module Sample.

Definition blank : Alerts := mkAlerts false false "" false "".

Definition form (title : string) : Inputs := mkInputs "" "" "" title "1".

Definition walk : Todo.t := Todo.mk 1 "Walk the dog" false 5 "2024-01-15".
Definition read : Todo.t := Todo.mk 2 "Read a book" true 7 "2024-02-20".
Definition milk : Todo.t := Todo.mk 3 "Buy MILK" false 5 "2024-01-31".

(** A store of three todos, all shown, with a title typed in the form. *)
Definition store : State :=
  mkState [walk; read; milk] [walk; read; milk] 1
          (form "  Buy milk ") blank [].

(** The state of a new [TodoApp] before its first load is answered. *)
Definition fresh : State := mkState [] [] 1 (form "") blank [].

(** The page of a new [TodoApp] while its first load is awaited. *)
Definition started : Page := suspended [] (newTodoApp (form "") blank).

(** A state that no run produces: nothing passes the filter, yet the current
    page is the second. *)
Definition stale : State :=
  mkState [walk; read; milk] [] 2 (form "") blank [].

(** A service that answers every request; to an add it answers [added]. *)
Definition service (added : NewTodo.t -> Added.t) : World :=
  fun _ X eff =>
    match eff in Effect X return X with
    | AxiosGet _ => inr [RemoteTodo.mk 1 "Walk the dog" false 5]
    | AxiosPost _ body => inr (added body)
    | AxiosPut _ _ => inr tt
    | AxiosDelete _ => inr tt
    | Confirm _ => true
    | Today => "2024-06-01"
    | RandomDate => "2024-03-03"
    end.

(** A service that rejects every request. *)
Definition offline : World :=
  fun _ X eff =>
    match eff in Effect X return X with
    | AxiosGet _ => inl "Network Error"
    | AxiosPost _ _ => inl "Network Error"
    | AxiosPut _ _ => inl "Network Error"
    | AxiosDelete _ => inl "Network Error"
    | Confirm _ => true
    | Today => "2024-06-01"
    | RandomDate => "2024-03-03"
    end.

(** The reply of a service that echoes the body and numbers the todo by
    [id]. *)
Definition echo (id : Z) (body : NewTodo.t) : Added.t :=
  Added.mk (Some id) (Some (NewTodo.todo body)) (NewTodo.completed body) 5.

(** The reply of a service that stores the title in capitals, marks the
    todo completed and numbers it [id]. *)
Definition rewritten (id : Z) (body : NewTodo.t) : Added.t :=
  Added.mk (Some id) (Some "BUY MILK") true 5.

(** The reply of a service that echoes the body but no id. *)
Definition unnumbered (body : NewTodo.t) : Added.t :=
  Added.mk None (Some (NewTodo.todo body)) (NewTodo.completed body) 5.

(** The page of a new [TodoApp] after its first load was rejected. *)
Definition failed : Page :=
  mkPage (fst (run offline 0 (newTodoApp (form "") blank))) [].

(** Twelve todos as the service lists them, numbered from 1; every second
    one has markup in its title and is completed. *)
Definition listing : list RemoteTodo.t :=
  (fun i =>
     RemoteTodo.mk (Z.of_nat i)
                   (if Nat.even i then "<b>Tea & scones</b>"
                    else "Walk the dog")
                   (Nat.even i) 5)
  <$> seq 1 12.

(** A service that lists [listing] and accepts every other request. *)
Definition catalogue : World :=
  fun _ X eff =>
    match eff in Effect X return X with
    | AxiosGet _ => inr listing
    | AxiosPost _ body => inr (echo 255 body)
    | AxiosPut _ _ => inr tt
    | AxiosDelete _ => inr tt
    | Confirm _ => true
    | Today => "2024-06-01"
    | RandomDate => "2024-03-03"
    end.

(** The page of a new [TodoApp] after its first load listed the twelve
    todos: two pages, the first one shown. *)
Definition loaded : Page :=
  mkPage (fst (run catalogue 0 (newTodoApp (form "") blank))) [].

(** The page [loaded] after TEA was typed in the search input: the six todos
    with tea in the title pass. *)
Definition searched : Page :=
  mkPage (fst (run catalogue 0 (handle (SearchTyped "TEA") (st loaded)))) [].

(** A document that shows both alerts when the program starts. *)
Definition noisy : Alerts :=
  mkAlerts false true "An old error" true "An old success".

(** The page of a new [TodoApp] on the document [noisy], after its first
    load was rejected. *)
Definition alarmed : Page :=
  mkPage (fst (run offline 0 (newTodoApp (form "") noisy))) [].

End Sample.

(** ** The views *)

(** The replacement of one character by [escapeHtml]: the five characters of
    the map become their entities, the others stay. *)
Definition escapeChar (c : ascii) : string :=
  if Ascii.eqb c "&" then "&amp;"
  else if Ascii.eqb c "<" then "&lt;"
  else if Ascii.eqb c ">" then "&gt;"
  else if Ascii.eqb c "034" then "&quot;"
  else if Ascii.eqb c "'" then "&#039;"
  else String c "".

(** [text.replace] over the class of the five characters of [map], each
    match replaced by its entry. *)
Fixpoint escapeHtml (text : string) : string :=
  match text with
  | EmptyString => EmptyString
  | String c r => escapeChar c ++ escapeHtml r
  end.

(** One item of the list that [renderTodos] writes: the values that the
    template interpolates, in the order of the template. The fixed markup
    around them is left out. *)
Module TodoRow.
Record t : Type := mk
  { checkedAttr : string;
    onchange : Z;
    titleClass : string;
    titleHtml : string;
    user : Z;
    date : string;
    badgeClass : string;
    badgeText : string;
    onclick : Z }.
End TodoRow.

(** The callback of [paginatedTodos.map] in [renderTodos]. *)
Definition todoRow (todo : Todo.t) : TodoRow.t :=
  TodoRow.mk
    (if Todo.completed todo then "checked" else "")
    (Todo.id todo)
    (if Todo.completed todo
     then "text-decoration-line-through text-muted" else "")
    (escapeHtml (Todo.title todo))
    (Todo.userId todo)
    (Todo.createdAt todo)
    (if Todo.completed todo then "bg-success" else "bg-warning")
    (if Todo.completed todo then "Completed" else "Pending")
    (Todo.id todo).

(** What [renderTodos] writes: the empty state with an empty list, or the
    items of the current page with the empty state hidden. *)
Inductive TodoListView : Type :=
| EmptyState
| Rows (rows : list TodoRow.t).

Definition renderTodos (s : State) : TodoListView :=
  let paginatedTodos := getPaginatedTodos s in
  if Z.of_nat (length paginatedTodos) =? 0 then EmptyState
  else Rows (todoRow <$> paginatedTodos).

(** The four numbers that [updateStatistics] writes. *)
Module Statistics.
Record t : Type := mk
  { totalTodos : Z; completedTodos : Z; pendingTodos : Z; filteredCount : Z }.
End Statistics.

Definition updateStatistics (s : State) : Statistics.t :=
  let totalTodos := Z.of_nat (length (todos s)) in
  let completedTodos :=
    Z.of_nat (length (List.filter (fun todo => Todo.completed todo)
                                  (todos s))) in
  let pendingTodos := totalTodos - completedTodos in
  let filteredCount := Z.of_nat (length (filteredTodos s)) in
  Statistics.mk totalTodos completedTodos pendingTodos filteredCount.

(** The todos of page [page] of a state. *)
Definition pageOf (s : State) (page : Z) : list Todo.t :=
  getPaginatedTodos (set_currentPage page s).

(** The characters that [escapeHtml] replaces. *)
Definition isMarkup (c : ascii) : bool :=
  Ascii.eqb c "&" || Ascii.eqb c "<" || Ascii.eqb c ">"
  || Ascii.eqb c "034" || Ascii.eqb c "'".

(** The characters of a text, in order. *)
Definition chars (t : string) : list ascii := list_ascii_of_string t.

(** The filtered list is the filter of the todos by the inputs as they
    are. *)
Definition inSync (s : State) : Prop :=
  filteredTodos s
  = List.filter (matchesFilters (JsString.toLowerCase (searchInput (inputs s)))
                                (fromDate (inputs s)) (toDate (inputs s)))
                (todos s).

(** The error alert and the success alert are not shown together. *)
Definition oneAlert (s : State) : Prop :=
  errorAlert (alerts s) && successAlert (alerts s) = false.

(** The page control is the marker of skipped pages. *)
Definition isEllipsis (item : PageItem) : bool :=
  match item with
  | Ellipsis => true
  | _ => false
  end.

(** What the loop of [renderPagination] writes for one page number, and
    for all of them. *)
Definition pageNumber (current total i : Z) : list PageItem :=
  if (i =? 1) || (i =? total) || (Z.abs (i - current) <=? 2)
  then [PageLink i (i =? current)]
  else if Z.abs (i - current) =? 3 then [Ellipsis] else [].

Definition pageNumbers (current total : Z) : list PageItem :=
  seqZ 1 total ≫= pageNumber current total.

(** The requests around which the loading indicator is shown: the list and
    the add. *)
Definition isLoad {X} (eff : Effect X) : bool :=
  match eff with
  | AxiosGet _ | AxiosPost _ _ => true
  | _ => false
  end.

Definition loadPending (pd : Pending) : bool :=
  match pd with
  | Pend eff _ => isLoad eff
  end.

(** [endsIn Q r]: the run [r] awaits nothing more, and ends in [Q]. *)
Fixpoint endsIn {A} (Q : State -> Prop) (r : Res A) : Prop :=
  match r with
  | Done s _ | Raise s _ => Q s
  | Call s eff k => awaited eff = false /\ forall x s', endsIn Q (k x s')
  end.

(** [spinner shown r]: up to its first request the run [r] leaves the loading
    indicator as it was, [shown]; the rest of a run that awaits the list or
    an add ends with the indicator hidden, the rest of a run that awaits
    another request ends with the indicator as it finds it. *)
Fixpoint spinner (shown : bool) (r : Res unit) : Prop :=
  match r with
  | Done s _ | Raise s _ => loadingIndicator (alerts s) = shown
  | Call s eff k =>
      if awaited eff then
        if isLoad eff
        then forall x s',
               endsIn (fun s'' => loadingIndicator (alerts s'') = false)
                      (k x s')
        else loadingIndicator (alerts s) = shown
             /\ forall x s',
                  endsIn (fun s'' => loadingIndicator (alerts s'')
                                     = loadingIndicator (alerts s'))
                         (k x s')
      else forall x, spinner shown (k x s)
  end.

(** What the rest of a pending method does to the loading indicator. *)
Definition settlesSpinner (pd : Pending) : Prop :=
  match pd with
  | Pend eff k =>
      forall x s',
        endsIn (fun s'' => loadingIndicator (alerts s'')
                           = if isLoad eff then false
                             else loadingIndicator (alerts s'))
               (k x s')
  end.

(** [awaitsLoad r]: the first request that the run [r] awaits is the list or
    an add. *)
Fixpoint awaitsLoad (r : Res unit) : Prop :=
  match r with
  | Done _ _ | Raise _ _ => False
  | Call s eff k =>
      if awaited eff then isLoad eff = true
      else forall x, awaitsLoad (k x s)
  end.

(** [direct w n r]: the run of [r] in [w], from its [n]-th effect on, meets
    no request that is awaited, so nothing can happen in between. *)
Fixpoint direct {A} (w : World) (n : nat) (r : Res A) : bool :=
  match r with
  | Done _ _ | Raise _ _ => true
  | Call s eff k => negb (awaited eff) && direct w (S n) (k (w n _ eff) s)
  end.

(** * Properties *)

(** ** The string primitives on sample texts *)

Example trim_spaces : JsString.trim "  Buy milk  " = "Buy milk".
Proof. reflexivity. Qed.

Example trim_blank : JsString.trim "   " = "".
Proof. reflexivity. Qed.

Example lower_mixed : JsString.toLowerCase "Buy MILK" = "buy milk".
Proof. reflexivity. Qed.

Example includes_mid : JsString.includes "buy milk" "y m" = true.
Proof. reflexivity. Qed.

Example includes_empty : JsString.includes "" "" = true.
Proof. reflexivity. Qed.

Example parseInt_dec : JsString.parseInt " 42px" = Some 42.
Proof. reflexivity. Qed.

Example parseInt_hex : JsString.parseInt "-0x1F" = Some (-31).
Proof. reflexivity. Qed.

Example parseInt_nan : JsString.parseInt "abc" = None.
Proof. reflexivity. Qed.

Example date_order : JsString.ge "2024-01-15" "2024-01-01" = true
                     /\ JsString.le "2024-01-15" "2024-01-31" = true
                     /\ JsString.le "2024-02-01" "2024-01-31" = false.
Proof. repeat split. Qed.

(** ** Strings *)

Section StringFacts.

Import JsString.

Lemma truthy_false s : truthy s = false <-> s = "".
Proof. destruct s; simpl; split; congruence. Qed.

Lemma truthy_true s : truthy s = true <-> s <> "".
Proof. destruct s; simpl; split; congruence. Qed.

Lemma toLowerCase_empty s : toLowerCase s = "" <-> s = "".
Proof. destruct s; simpl; split; congruence. Qed.

Lemma toLowerCase_app a b :
  toLowerCase (a ++ b) = toLowerCase a ++ toLowerCase b.
Proof. induction a as [|c a IH]; simpl; [reflexivity | now rewrite IH]. Qed.

(** A split of the lower-cased text comes from a split of the text. *)
Lemma toLowerCase_split t a b :
  toLowerCase t = a ++ b ->
  exists a' b', t = a' ++ b' /\ toLowerCase a' = a /\ toLowerCase b' = b.
Proof.
  revert t. induction a as [|c a IH]; intros t H; simpl in H.
  - exists "", t. auto.
  - destruct t as [|d t]; simpl in H; [discriminate|].
    injection H as Hc Ht. destruct (IH _ Ht) as (a' & b' & -> & Ha & Hb).
    exists (String d a'), b'. simpl. rewrite Hc, Ha. auto.
Qed.

Lemma prefix_app sub s :
  String.prefix sub s = true <-> exists after, s = sub ++ after.
Proof.
  revert s. induction sub as [|c sub IH]; intros s; simpl.
  - split; [intros _; exists s; reflexivity | destruct s; reflexivity].
  - destruct s as [|d s]; simpl.
    + split; [discriminate | intros [x Hx]; discriminate].
    + destruct (ascii_dec c d) as [->|Hne].
      * rewrite IH. split; intros [x Hx]; exists x; simpl in *; congruence.
      * split; [discriminate | intros [x Hx]; simpl in Hx; congruence].
Qed.

Lemma includes_cons c s sub :
  includes (String c s) sub
  = if String.prefix sub (String c s) then true else includes s sub.
Proof. reflexivity. Qed.

Lemma includes_iff s sub :
  includes s sub = true <-> exists before after, s = before ++ sub ++ after.
Proof.
  induction s as [|c s IH].
  - change (includes "" sub)
      with (if String.prefix sub "" then true else false).
    destruct (String.prefix sub "") eqn:Hp.
    + apply prefix_app in Hp as [x Hx].
      split; [intros _; exists "", x; exact Hx | reflexivity].
    + split; [discriminate|]. intros (before & after & H).
      destruct before; simpl in H; [|discriminate].
      assert (String.prefix sub "" = true) by (apply prefix_app; eauto).
      congruence.
  - rewrite includes_cons.
    destruct (String.prefix sub (String c s)) eqn:Hp.
    + apply prefix_app in Hp as [x Hx].
      split; [intros _; exists "", x; exact Hx | reflexivity].
    + rewrite IH. split.
      * intros (before & after & ->). exists (String c before), after.
        reflexivity.
      * intros (before & after & H). destruct before as [|d before].
        -- assert (String.prefix sub (String c s) = true)
             by (apply prefix_app; exists after; exact H).
           congruence.
        -- simpl in H. injection H as _ H. eauto.
Qed.

(** The code of a lower-cased code unit. *)
Lemma N_of_lowerChar c :
  N_of_ascii (lowerChar c)
  = (let n := N_of_ascii c in
     if (65 <=? n) && (n <=? 90)
        || (192 <=? n) && (n <=? 222) && negb (n =? 215)
     then n + 32 else n)%N.
Proof.
  unfold lowerChar. cbv zeta.
  pose proof (N_ascii_bounded c) as Hc.
  destruct (_ || _)%bool eqn:E; [|reflexivity].
  apply N_ascii_embedding.
  rewrite orb_true_iff, !andb_true_iff, negb_true_iff in E.
  rewrite !N.leb_le in E. lia.
Qed.

(** [toLowerCase] gives two code units the same image exactly when they are
    the same letter up to case: it sends a capital to its small letter and
    leaves every other code unit. *)
Lemma lowerChar_same c d : lowerChar c = lowerChar d <-> sameLetter c d.
Proof.
  assert (lowerChar c = lowerChar d
          <-> N_of_ascii (lowerChar c) = N_of_ascii (lowerChar d)) as ->.
  { split; [congruence|]. intros H.
    rewrite <- (ascii_N_embedding (lowerChar c)), H.
    apply ascii_N_embedding. }
  assert (c = d <-> N_of_ascii c = N_of_ascii d) as Heq.
  { split; [congruence|]. intros H.
    rewrite <- (ascii_N_embedding c), H. apply ascii_N_embedding. }
  rewrite !N_of_lowerChar. cbv zeta.
  pose proof (N_ascii_bounded c) as Hc. pose proof (N_ascii_bounded d) as Hd.
  split.
  - intros H.
    destruct (N.leb_spec 65 (N_of_ascii c)), (N.leb_spec (N_of_ascii c) 90),
      (N.leb_spec 192 (N_of_ascii c)), (N.leb_spec (N_of_ascii c) 222),
      (N.eqb_spec (N_of_ascii c) 215),
      (N.leb_spec 65 (N_of_ascii d)), (N.leb_spec (N_of_ascii d) 90),
      (N.leb_spec 192 (N_of_ascii d)), (N.leb_spec (N_of_ascii d) 222),
      (N.eqb_spec (N_of_ascii d) 215);
      cbn [andb orb negb] in H;
      first
        [ lia
        | assert (c = d) as -> by (apply Heq; lia); apply sameLetter_same
        | apply sameLetter_small; [unfold isCapital; cbv zeta; lia | lia]
        | apply sameLetter_capital; [unfold isCapital; cbv zeta; lia | lia] ].
  - intros [e | e f Hcap Hf | e f Hcap Hf]; [reflexivity|..];
      unfold isCapital in Hcap; cbv zeta in Hcap;
      pose proof (N_ascii_bounded e); pose proof (N_ascii_bounded f);
      destruct (N.leb_spec 65 (N_of_ascii e)), (N.leb_spec (N_of_ascii e) 90),
        (N.leb_spec 192 (N_of_ascii e)), (N.leb_spec (N_of_ascii e) 222),
        (N.eqb_spec (N_of_ascii e) 215),
        (N.leb_spec 65 (N_of_ascii f)), (N.leb_spec (N_of_ascii f) 90),
        (N.leb_spec 192 (N_of_ascii f)), (N.leb_spec (N_of_ascii f) 222),
        (N.eqb_spec (N_of_ascii f) 215);
      cbn [andb orb negb]; lia.
Qed.

(** Two texts have the same lower-cased form exactly when they are the same
    up to case. *)
Lemma toLowerCase_same a b :
  toLowerCase a = toLowerCase b <-> sameIgnoringCase a b.
Proof.
  split.
  - revert b. induction a as [|c a IH]; intros [|d b] H; simpl in H;
      try discriminate; [constructor|].
    injection H as Hc Hr. constructor; [now apply lowerChar_same | auto].
  - induction 1 as [|c d a b Hc _ IH]; [reflexivity|].
    simpl. apply lowerChar_same in Hc. now rewrite Hc, IH.
Qed.

(** The test of [applyFilters] on the lower-cased texts is the
    case-insensitive substring match. *)
Lemma includes_toLowerCase search title :
  includes (toLowerCase title) (toLowerCase search) = true
  <-> matchesSearch search title.
Proof.
  rewrite includes_iff. unfold matchesSearch. split.
  - intros (before & after & H).
    apply toLowerCase_split in H as (b' & r & -> & Hb & Hr).
    apply toLowerCase_split in Hr as (p' & a' & -> & Hp & Ha).
    exists b', p', a'. split; [reflexivity|].
    now apply toLowerCase_same.
  - intros (before & part & after & -> & H). apply toLowerCase_same in H.
    exists (toLowerCase before), (toLowerCase after).
    now rewrite !toLowerCase_app, H.
Qed.

Lemma matchesSearch_empty title : matchesSearch "" title.
Proof. exists "", "", title. split; [reflexivity | constructor]. Qed.

Lemma compare_lexLe a b : String.compare a b <> Gt <-> lexLe a b.
Proof.
  revert b. induction a as [|c a IH]; intros [|d b]; simpl.
  - split; [constructor | discriminate].
  - split; [constructor | discriminate].
  - split; [congruence | inversion 1].
  - unfold Ascii.compare.
    destruct (N.compare_spec (N_of_ascii c) (N_of_ascii d)) as [He|Hl|Hg].
    + assert (c = d) as ->.
      { now rewrite <- (ascii_N_embedding c), He, ascii_N_embedding. }
      rewrite IH. split; [constructor; assumption|].
      inversion 1; subst; [lia | assumption].
    + split; [constructor; assumption | discriminate].
    + split; [congruence|]. inversion 1; subst; lia.
Qed.

Lemma le_lexLe a b : le a b = true <-> lexLe a b.
Proof.
  rewrite <- compare_lexLe. unfold le, String.ltb.
  rewrite String.compare_antisym.
  destruct (String.compare a b); simpl; split; congruence.
Qed.

Lemma ge_lexLe a b : ge a b = true <-> lexLe b a.
Proof.
  rewrite <- compare_lexLe. unfold ge, String.ltb.
  rewrite (String.compare_antisym b a).
  destruct (String.compare a b); simpl; split; congruence.
Qed.

End StringFacts.

(** ** Dates *)

Example isoDate_sample : isoDate 2024 1 31 = "2024-01-31".
Proof. reflexivity. Qed.

Lemma lexLe_cons c a d b :
  lexLe (String c a) (String d b)
  <-> (N_of_ascii c < N_of_ascii d)%N \/ c = d /\ lexLe a b.
Proof.
  split.
  - inversion 1; subst; auto.
  - intros [H|[-> H]]; [now apply lexLe_less | now apply lexLe_same].
Qed.

Lemma N_of_isoDigit n : (n < 10)%N -> N_of_ascii (isoDigit n) = (48 + n)%N.
Proof. intros H. apply N_ascii_embedding. lia. Qed.

Lemma isoDigit_inj n n' :
  (n < 10)%N -> (n' < 10)%N -> isoDigit n = isoDigit n' -> n = n'.
Proof.
  intros H H' E. apply (f_equal N_of_ascii) in E.
  rewrite !N_of_isoDigit in E by assumption. lia.
Qed.

(** Two digits order the texts as the number orders, then the rest does. *)
Lemma lexLe_isoTwoDigits n n' r r' :
  (n < 100)%N -> (n' < 100)%N ->
  lexLe (isoTwoDigits n r) (isoTwoDigits n' r')
  <-> (n < n')%N \/ n = n' /\ lexLe r r'.
Proof.
  intros H H'. unfold isoTwoDigits. rewrite !lexLe_cons.
  assert (n / 10 < 10)%N by (apply N.Div0.div_lt_upper_bound; lia).
  assert (n' / 10 < 10)%N by (apply N.Div0.div_lt_upper_bound; lia).
  assert (n mod 10 < 10)%N by (apply N.mod_upper_bound; lia).
  assert (n' mod 10 < 10)%N by (apply N.mod_upper_bound; lia).
  rewrite !N_of_isoDigit by assumption.
  pose proof (N.Div0.div_mod n 10). pose proof (N.Div0.div_mod n' 10).
  set (q := (n / 10)%N) in *. set (q' := (n' / 10)%N) in *.
  set (u := (n mod 10)%N) in *. set (u' := (n' mod 10)%N) in *.
  clearbody q q' u u'. split.
  - intros [Hlt|[E [Hlt|[E' Hr]]]].
    + left. lia.
    + apply isoDigit_inj in E; [|assumption..]. left. lia.
    + apply isoDigit_inj in E, E'; [|assumption..].
      right. split; [lia|exact Hr].
  - intros [Hlt|[E Hr]].
    + destruct (N.lt_ge_cases q q'); [left; lia|].
      right. split; [f_equal; lia|]. left. lia.
    + assert (q = q') as -> by lia. assert (u = u') as -> by lia.
      right. split; [reflexivity|]. right. auto.
Qed.

(** On the texts of two calendar days the lexicographic order is the order
    of the days. *)
Lemma lexLe_isoDate y m d y' m' d' :
  (y < 10000)%N -> (y' < 10000)%N ->
  (m < 100)%N -> (m' < 100)%N -> (d < 100)%N -> (d' < 100)%N ->
  lexLe (isoDate y m d) (isoDate y' m' d') <-> dateLe y m d y' m' d'.
Proof.
  intros. unfold isoDate, dateLe.
  assert (y / 100 < 100)%N by (apply N.Div0.div_lt_upper_bound; lia).
  assert (y' / 100 < 100)%N by (apply N.Div0.div_lt_upper_bound; lia).
  assert (y mod 100 < 100)%N by (apply N.mod_upper_bound; lia).
  assert (y' mod 100 < 100)%N by (apply N.mod_upper_bound; lia).
  pose proof (N.Div0.div_mod y 100). pose proof (N.Div0.div_mod y' 100).
  set (c := (y / 100)%N) in *. set (c' := (y' / 100)%N) in *.
  set (u := (y mod 100)%N) in *. set (u' := (y' mod 100)%N) in *.
  clearbody c c' u u'.
  rewrite !lexLe_isoTwoDigits, lexLe_cons, lexLe_isoTwoDigits, lexLe_cons,
    lexLe_isoTwoDigits by assumption.
  assert (lexLe "" "") by constructor.
  assert (~ (N_of_ascii "-" < N_of_ascii "-")%N) by lia.
  split; [intuition lia|].
  intros [Hy|[E [Hm|[-> Hd]]]];
    [|assert (c = c') as -> by lia; assert (u = u') as -> by lia..].
  - destruct (N.lt_ge_cases c c'); [left; lia|].
    right. split; [lia|]. left. lia.
  - right. split; [reflexivity|]. right. split; [reflexivity|].
    right. split; [reflexivity|]. left. exact Hm.
  - right. split; [reflexivity|]. right. split; [reflexivity|].
    right. split; [reflexivity|]. right. split; [reflexivity|].
    right. split; [reflexivity|].
    destruct (N.eq_dec d d') as [->|]; [right; auto | left; lia].
Qed.

(** So the two bounds of the filter, read as calendar days, are inclusive
    bounds on the day the todo was created. *)
Lemma bounds_isoDate todo y m d y' m' d' :
  (y < 10000)%N -> (y' < 10000)%N ->
  (m < 100)%N -> (m' < 100)%N -> (d < 100)%N -> (d' < 100)%N ->
  Todo.createdAt todo = isoDate y' m' d' ->
  (notBefore (isoDate y m d) todo <-> dateLe y m d y' m' d')
  /\ (notAfter (isoDate y m d) todo <-> dateLe y' m' d' y m d).
Proof.
  intros. unfold notBefore, notAfter.
  replace (Todo.createdAt todo) with (isoDate y' m' d').
  rewrite !lexLe_isoDate by assumption.
  split; (split; [intros [E|E]; [discriminate E | exact E] | auto]).
Qed.

(** ** The filter *)

Lemma selects_filter {A} (P : A -> Prop) (f : A -> bool) (T : list A) :
  (forall x, f x = true <-> P x) -> selects P T (List.filter f T).
Proof.
  intros Hf. induction T as [|x T IH]; simpl; [constructor|].
  destruct (f x) eqn:Hx.
  - apply selects_keep; [now apply Hf | exact IH].
  - apply selects_skip; [|exact IH]. rewrite <- Hf. congruence.
Qed.

(** [selects] names one list: the selection is a function of [P] and [T]. *)
Lemma selects_unique {A} (P : A -> Prop) (T F F' : list A) :
  selects P T F -> selects P T F' -> F = F'.
Proof.
  intros H. revert F'. induction H; intros F' H'; inversion H'; subst;
    try reflexivity; try contradiction; auto using f_equal.
Qed.

Lemma selects_sublist {A} (P : A -> Prop) (T F : list A) :
  selects P T F -> sublist F T.
Proof. induction 1; constructor; assumption. Qed.

Lemma selects_elem_of {A} (P : A -> Prop) (T F : list A) :
  selects P T F -> forall x, x ∈ F <-> x ∈ T /\ P x.
Proof.
  induction 1 as [|x T F Hx _ IH|x T F Hx _ IH]; intros y.
  - rewrite elem_of_nil. tauto.
  - rewrite !elem_of_cons, IH. split; [|tauto].
    intros [->|[? ?]]; auto.
  - rewrite elem_of_cons, IH. split; [tauto|].
    intros [[->|?] ?]; [contradiction | auto].
Qed.

Lemma selects_all {A} (P : A -> Prop) (T : list A) :
  Forall P T -> selects P T T.
Proof. induction 1; constructor; assumption. Qed.

Lemma matchesFilters_passes search fromDate toDate todo :
  matchesFilters (JsString.toLowerCase search) fromDate toDate todo = true
  <-> passes search fromDate toDate todo.
Proof.
  unfold matchesFilters, passes, notBefore, notAfter.
  rewrite !andb_true_iff, !orb_true_iff, !negb_true_iff, !truthy_false.
  rewrite toLowerCase_empty, includes_toLowerCase, ge_lexLe, le_lexLe.
  intuition (subst; auto using matchesSearch_empty).
Qed.


(** The search ignores case both ways: of the three todos of the sample
    store, the one with MILK in its title passes the search for mILk. *)
Example applyFilters_ignores_case :
  filteredTodos
    (applyFilters (set_inputs (mkInputs "mILk" "" "" "" "1") Sample.store))
  = [Sample.milk].
Proof. reflexivity. Qed.

(** With the three inputs empty the callback of the filter keeps every
    todo. *)
Lemma filter_no_filters (T : list Todo.t) :
  List.filter (matchesFilters (JsString.toLowerCase "") "" "") T = T.
Proof.
  induction T as [|todo T IH]; [reflexivity|].
  cbn [List.filter]. rewrite IH. reflexivity.
Qed.

(** C3. With an empty search text and no date bound, the filter returns the
    collection itself. *)
Theorem applyFilters_identity (s : State) :
  searchInput (inputs s) = "" ->
  fromDate (inputs s) = "" ->
  toDate (inputs s) = "" ->
  filteredTodos (applyFilters s) = todos s.
Proof.
  intros Hs Hf Ht. unfold applyFilters. rewrite Hs, Hf, Ht.
  exact (filter_no_filters (todos s)).
Qed.

Lemma applyFilters_identity_witness :
  filteredTodos (applyFilters Sample.store) = todos Sample.store.
Proof. apply (applyFilters_identity Sample.store); reflexivity. Defined.

Lemma clearFilters_shows_all (s : State) :
  filteredTodos (clearFilters s) = todos s /\ todos (clearFilters s) = todos s.
Proof. split; [exact (filter_no_filters (todos s)) | reflexivity]. Qed.

(** ** The page count *)

Lemma totalPages_div (s : State) :
  totalPages s = - (- Z.of_nat (length (filteredTodos s)) / 10).
Proof.
  unfold totalPages, Qceiling, Qfloor, todosPerPage. simpl.
  now rewrite Z.mul_1_r.
Qed.

Lemma totalPages_ceiling (s : State) :
  isCeiling (Z.of_nat (length (filteredTodos s))) todosPerPage (totalPages s).
Proof.
  rewrite totalPages_div. unfold isCeiling, todosPerPage.
  pose proof (Z.div_mod (- Z.of_nat (length (filteredTodos s))) 10).
  pose proof (Z.mod_pos_bound (- Z.of_nat (length (filteredTodos s))) 10).
  lia.
Qed.

Lemma isCeiling_unique n p c c' :
  0 < p -> isCeiling n p c -> isCeiling n p c' -> c = c'.
Proof. unfold isCeiling. intros. nia. Qed.

Lemma totalPages_nonneg (s : State) : 0 <= totalPages s.
Proof.
  pose proof (totalPages_ceiling s) as H. unfold isCeiling, todosPerPage in H.
  lia.
Qed.

Lemma totalPages_empty (s : State) :
  totalPages s = 0 <-> filteredTodos s = [].
Proof.
  pose proof (totalPages_ceiling s) as H. unfold isCeiling, todosPerPage in H.
  rewrite <- length_zero_iff_nil. lia.
Qed.

(** ** Reasoning about runs *)

Lemma post_mono {A} (I : State -> Prop) (Q Q' : State -> A + Error -> Prop)
    (r : Res A) :
  (forall s o, Q s o -> Q' s o) -> post I Q r -> post I Q' r.
Proof.
  intros HQ. induction r as [s a|s e|X s eff k IH]; simpl; auto.
  intros [Hs Hk]. split; [exact Hs|]. intros x s' Hs'. apply IH, Hk, Hs'.
Qed.

Lemma post_bind {A B} (I : State -> Prop) (Q : State -> B + Error -> Prop)
    (r : Res A) (f : A -> M B) :
  post I (fun s o => match o with
                     | inl a => post I Q (f a s)
                     | inr e => Q s (inr e)
                     end) r ->
  post I Q (bindRes r f).
Proof.
  induction r as [s a|s e|X s eff k IH]; simpl; auto.
  intros [Hs Hk]. split; [exact Hs|]. intros x s' Hs'. apply IH, Hk, Hs'.
Qed.

Lemma post_catch {A} (I : State -> Prop) (Q : State -> A + Error -> Prop)
    (r : Res A) (h : Error -> M A) :
  post I (fun s o => match o with
                     | inl a => Q s (inl a)
                     | inr e => post I Q (h e s)
                     end) r ->
  post I Q (catchRes r h).
Proof.
  induction r as [s a|s e|X s eff k IH]; simpl; auto.
  intros [Hs Hk]. split; [exact Hs|]. intros x s' Hs'. apply IH, Hk, Hs'.
Qed.

Lemma post_mapM_loaded (I : State -> Prop)
    (Q : State -> list Todo.t + Error -> Prop) (listed : list RemoteTodo.t)
    (s : State) :
  I s ->
  (forall s' built, I s' -> loadedFrom listed built -> Q s' (inl built)) ->
  post I Q (mapM (fun todo => createdAt ← generateRandomDate;
                              mret (loadedTodo todo createdAt)) listed s).
Proof.
  revert Q s. induction listed as [|todo listed IH]; intros Q s Hs HQ.
  - simpl. apply HQ; [exact Hs | constructor].
  - simpl. split; [exact Hs|]. intros date s' Hs'.
    apply post_bind, IH; [exact Hs'|]. intros s'' built Hs'' Hb. simpl.
    apply HQ; [exact Hs''|]. constructor; eauto.
Qed.

Lemma loadedFrom_ids listed built :
  loadedFrom listed built -> Todo.id <$> built = RemoteTodo.id <$> listed.
Proof.
  induction 1 as [|todo t listed built [date ->] _ IH];
    [reflexivity | now rewrite !fmap_cons, IH].
Qed.

Ltac unfold_m :=
  unfold await, generateRandomDate;
  unfold mbind, M_bind, mret, M_ret, tryCatch, gets, modify, call, throw.

(** Runs the method of the goal up to its next effect or branch. *)
Ltac run_m :=
  unfold_m; cbn [bindRes catchRes post negb handle newTodoApp].

(** ** The current page stays in range *)

Lemma pageInRange_display s s' :
  filteredTodos s' = filteredTodos s -> currentPage s' = currentPage s ->
  pageInRange s -> pageInRange s'.
Proof. unfold pageInRange, pageCount, totalPages. intros -> ->. auto. Qed.

Lemma pageInRange_applyFilters s : pageInRange (applyFilters s).
Proof. unfold pageInRange, pageCount. simpl. lia. Qed.

Lemma pageInRange_goToPage page s :
  pageInRange s -> pageInRange (goToPage page s).
Proof.
  unfold goToPage. intros H. destruct (_ || _) eqn:Hc; [exact H|].
  apply orb_false_iff in Hc as [H1 H2].
  unfold pageInRange, pageCount.
  change (totalPages (set_currentPage page s)) with (totalPages s).
  simpl. lia.
Qed.

Ltac page_solve :=
  first
    [ assumption
    | apply pageInRange_applyFilters
    | apply pageInRange_goToPage; assumption
    | eapply pageInRange_display; [| | eassumption]; reflexivity ].

Lemma always_page_loadTodos s :
  pageInRange s -> always pageInRange (loadTodos s).
Proof.
  intros Hs. unfold always, loadTodos. run_m.
  split; [page_solve|]. intros [e|listed] s' Hs'; run_m; [page_solve|].
  apply post_catch, post_bind, post_mapM_loaded; [exact Hs'|].
  intros s'' built Hs'' _. run_m. unfold hideLoading, with_alerts.
  eapply pageInRange_display; [| |apply pageInRange_applyFilters]; reflexivity.
Qed.

Lemma always_page_addTodo s :
  pageInRange s -> always pageInRange (addTodo s).
Proof.
  intros Hs. unfold always, addTodo. run_m.
  destruct (JsString.truthy _); run_m; [|page_solve].
  split; [page_solve|]. intros [e|data] s' Hs'; run_m; [page_solve|].
  split; [page_solve|]. intros today s'' Hs''.
  eapply pageInRange_display; [| |apply pageInRange_applyFilters]; reflexivity.
Qed.

Lemma always_page_toggleTodo todoId s :
  pageInRange s -> always pageInRange (toggleTodo todoId s).
Proof.
  intros Hs. unfold always, toggleTodo. run_m.
  destruct (list_find _ _) as [[i t]|]; run_m; [|page_solve].
  split; [page_solve|]. intros [e|[]] s' Hs'; run_m; page_solve.
Qed.

Lemma always_page_deleteTodo todoId s :
  pageInRange s -> always pageInRange (deleteTodo todoId s).
Proof.
  intros Hs. unfold always, deleteTodo. run_m.
  split; [page_solve|]. intros [|] s' Hs'; run_m; [|page_solve].
  split; [page_solve|]. intros [e|[]] s'' Hs''; run_m; page_solve.
Qed.

Lemma always_page_handle ev s :
  pageInRange s -> always pageInRange (handle ev s).
Proof.
  intros Hs. destruct ev; simpl;
    auto using always_page_loadTodos, always_page_addTodo,
               always_page_toggleTodo, always_page_deleteTodo;
    unfold always; run_m; unfold clearFilters; page_solve.
Qed.

Lemma always_page_newTodoApp i a : always pageInRange (newTodoApp i a).
Proof.
  apply always_page_loadTodos. unfold pageInRange, pageCount. simpl. lia.
Qed.

(** ** Invariants of the reachable pages *)

Section Invariant.

Variable P : State -> Prop.
Hypothesis P_new : forall i a, always P (newTodoApp i a).
Hypothesis P_handle : forall ev s, P s -> always P (handle ev s).

Lemma settles_keeps pend r p :
  always P r -> Forall (keeps P) pend -> settles pend r p ->
  P (st p) /\ Forall (keeps P) (pending p).
Proof.
  intros Hr Hpend Hsettles.
  induction Hsettles as [s|s e|X eff s k x p _ _ IH|X eff s k _];
    simpl in *; auto.
  - destruct Hr as [Hs Hk]. apply IH, Hk, Hs.
  - destruct Hr as [Hs Hk]. split; [exact Hs|]. constructor; [|exact Hpend].
    exact Hk.
Qed.

Lemma reachable_keeps p :
  Reachable p -> P (st p) /\ Forall (keeps P) (pending p).
Proof.
  induction 1 as [i a p Hs|p ev p' _ [IHs IHp] Hs
                 |p l1 X eff k l2 x p' _ [IHs IHp] Hl Hs].
  - eapply settles_keeps; [apply P_new | constructor | exact Hs].
  - eapply settles_keeps; [apply P_handle, IHs | exact IHp | exact Hs].
  - rewrite Hl in IHp. apply Forall_app in IHp as [H1 H2].
    apply Forall_cons in H2 as [Hk H2].
    eapply settles_keeps; [apply Hk, IHs | | exact Hs].
    apply Forall_app; auto.
Qed.

End Invariant.

Lemma reachable_pageInRange p : Reachable p -> pageInRange (st p).
Proof.
  intros H.
  apply (reachable_keeps pageInRange always_page_newTodoApp
                         always_page_handle p H).
Qed.

(** ** Pagination *)

(** C4 as stated fails on the empty list: the program computes zero pages,
    not one. *)
Lemma totalPages_empty_not_pageCount :
  filteredTodos Sample.fresh = []
  /\ totalPages Sample.fresh = 0
  /\ ~ isPageCount (Z.of_nat (length (filteredTodos Sample.fresh)))
                   (totalPages Sample.fresh).
Proof.
  split; [reflexivity|]. split; [reflexivity|].
  intros [q [_ H]]. change (totalPages Sample.fresh) with 0 in H. lia.
Qed.

(** C4, amended. The page count that [renderPagination] and [goToPage]
    compute for a filtered list of length [n] is [ceil(n / 10)] with no
    minimum: it is 0 for the empty list, and for a non-empty list it is
    at least 1 and is the page count of the specification. *)
Theorem totalPages_ceiling_no_minimum (s : State) :
  let n := Z.of_nat (length (filteredTodos s)) in
  isCeiling n todosPerPage (totalPages s)
  /\ (n = 0 -> totalPages s = 0)
  /\ (0 < n -> 1 <= totalPages s /\ isPageCount n (totalPages s)).
Proof.
  intros n. pose proof (totalPages_ceiling s) as H. fold n in H.
  split; [exact H|]. unfold isCeiling, todosPerPage in H. split; [lia|].
  intros Hn. split; [lia|]. exists (totalPages s). split; [exact H | lia].
Qed.

Lemma totalPages_ceiling_no_minimum_witness :
  totalPages Sample.fresh = 0
  /\ (1 <= totalPages Sample.store
      /\ isPageCount 3 (totalPages Sample.store)).
Proof.
  split.
  - apply (totalPages_ceiling_no_minimum Sample.fresh). reflexivity.
  - apply (totalPages_ceiling_no_minimum Sample.store). reflexivity.
Defined.

(** The guard of [goToPage], on any state. *)
Lemma goToPage_guard (page : Z) (s : State) :
  (page < 1 \/ totalPages s < page -> goToPage page s = s)
  /\ (1 <= page <= totalPages s -> goToPage page s = set_currentPage page s).
Proof.
  unfold goToPage. split; intros H.
  - destruct (page <? 1) eqn:H1; [reflexivity|].
    destruct (totalPages s <? page) eqn:H2; [reflexivity|]. lia.
  - destruct (page <? 1) eqn:H1; [lia|].
    destruct (totalPages s <? page) eqn:H2; [lia | reflexivity].
Qed.

Lemma set_currentPage_same (s : State) :
  set_currentPage (currentPage s) s = s.
Proof. destruct s; reflexivity. Qed.

(** In the states the program reaches, the current page is 1 when nothing
    passes the filter. *)
Lemma reachable_empty_first (p : Page) :
  Reachable p -> filteredTodos (st p) = [] -> currentPage (st p) = 1.
Proof.
  intros Hp Hnil. pose proof (reachable_pageInRange p Hp) as Hr.
  unfold pageInRange, pageCount in Hr.
  apply totalPages_empty in Hnil. lia.
Qed.

Lemma started_reachable : Reachable Sample.started.
Proof.
  apply (reach_new (Sample.form "") Sample.blank). apply settles_await.
  reflexivity.
Qed.

(** A run that awaits nothing settles where it ends. *)
Lemma settles_direct pend (w : World) (n : nat) (r : Res unit) :
  direct w n r = true -> settles pend r (mkPage (fst (run w n r)) pend).
Proof.
  revert n. induction r as [s []|s e|X s eff k IH]; intros n H.
  - apply settles_done.
  - apply settles_raise.
  - cbn [direct] in H. apply andb_true_iff in H as [Ha Hk].
    apply negb_true_iff in Ha.
    apply (settles_now pend X eff s k (w n X eff)); [exact Ha|].
    exact (IH _ _ (S n) Hk).
Qed.

Lemma loaded_reachable : Reachable Sample.loaded.
Proof.
  eapply (reach_answer Sample.started [] _ _ _ [] (inr Sample.listing));
    [exact started_reachable | reflexivity |].
  apply (settles_direct [] Sample.catalogue 1). reflexivity.
Qed.

Lemma searched_reachable : Reachable Sample.searched.
Proof.
  apply (reach_event Sample.loaded (SearchTyped "TEA"));
    [exact loaded_reachable|].
  apply (settles_direct [] Sample.catalogue 0). reflexivity.
Qed.

Lemma alarmed_reachable : Reachable Sample.alarmed.
Proof.
  eapply (reach_answer
            (suspended [] (newTodoApp (Sample.form "") Sample.noisy))
            [] _ _ _ [] (inl "Network Error")); [|reflexivity|].
  - apply (reach_new (Sample.form "") Sample.noisy). apply settles_await.
    reflexivity.
  - apply settles_done.
Qed.

(** The guard of [goToPage] on every state, reached or not: the page is
    compared with [ceil(n / 10)], which is zero for an empty filtered
    list. *)
Lemma goToPage_rejects_or_sets (s : State) (page : Z) :
  (page < 1 \/ totalPages s < page -> goToPage page s = s)
  /\ (1 <= page <= totalPages s ->
      goToPage page s = set_currentPage page s
      /\ currentPage (goToPage page s) = page)
  /\ (filteredTodos s <> [] -> currentPage (goToPage 1 s) = 1)
  /\ (filteredTodos s = [] -> goToPage page s = s).
Proof.
  destruct (goToPage_guard page s) as [Hno Hyes].
  pose proof (totalPages_nonneg s) as H0.
  pose proof (totalPages_empty s) as He.
  split; [exact Hno|]. split; [|split].
  - intros H. rewrite Hyes by exact H. split; reflexivity.
  - intros Hne. destruct (goToPage_guard 1 s) as [_ Hyes1].
    rewrite Hyes1; [reflexivity|]. split; [lia|].
    destruct (Z.eq_dec (totalPages s) 0) as [Hz|Hz]; [|lia].
    apply He in Hz. contradiction.
  - intros Hnil. apply He in Hnil. apply Hno. lia.
Qed.

(** A state that is built by hand, with an empty filtered list and the
    current page 2: there the guard returns on page 1 too. No run of the
    program produces such a state. *)
Example goToPage_empty_rejects_first :
  filteredTodos Sample.stale = []
  /\ currentPage Sample.stale = 2
  /\ goToPage 1 Sample.stale = Sample.stale.
Proof. repeat split. Qed.

(** C5. In every state the program reaches and for every requested page,
    [goToPage] leaves the state as it is, without clamping to the nearest
    page, when the page is below 1 or above the page count
    [max(1, ceil(n / 10))], and sets [currentPage] to the page otherwise.
    Page 1 is a valid target in every case, with a single page and with an
    empty filtered list too. *)
Theorem goToPage_reachable (p : Page) (page : Z) :
  Reachable p ->
  let s := st p in
  isPageCount (Z.of_nat (length (filteredTodos s))) (pageCount s)
  /\ (page < 1 \/ pageCount s < page -> goToPage page s = s)
  /\ (1 <= page <= pageCount s ->
      goToPage page s = set_currentPage page s
      /\ currentPage (goToPage page s) = page)
  /\ currentPage (goToPage 1 s) = 1.
Proof.
  intros Hp s. pose proof (reachable_pageInRange p Hp) as Hr. fold s in Hr.
  pose proof (totalPages_nonneg s) as H0.
  unfold pageInRange, pageCount in *.
  assert (forall k, 1 <= k <= Z.max 1 (totalPages s) ->
                    goToPage k s = set_currentPage k s) as Hset.
  { intros k Hk. destruct (goToPage_guard k s) as [Hno Hyes].
    destruct (Z.le_gt_cases k (totalPages s)) as [Hle|Hgt].
    - apply Hyes. lia.
    - rewrite Hno by lia. assert (k = currentPage s) as -> by lia.
      symmetry. apply set_currentPage_same. }
  split; [|split; [|split]].
  - exists (totalPages s). split; [apply totalPages_ceiling | reflexivity].
  - intros H. apply (goToPage_guard page s). lia.
  - intros H. rewrite (Hset page H). split; reflexivity.
  - rewrite (Hset 1) by lia. reflexivity.
Qed.

Lemma goToPage_reachable_witness :
  goToPage 2 (st Sample.loaded) = set_currentPage 2 (st Sample.loaded)
  /\ goToPage 3 (st Sample.loaded) = st Sample.loaded
  /\ goToPage 0 (st Sample.loaded) = st Sample.loaded
  /\ filteredTodos (st Sample.started) = []
  /\ currentPage (goToPage 1 (st Sample.started)) = 1.
Proof.
  destruct (goToPage_reachable Sample.loaded 2 loaded_reachable)
    as (_ & _ & H2 & _).
  destruct (goToPage_reachable Sample.loaded 3 loaded_reachable)
    as (_ & H3 & _).
  destruct (goToPage_reachable Sample.loaded 0 loaded_reachable)
    as (_ & H0 & _).
  destruct (goToPage_reachable Sample.started 1 started_reachable)
    as (_ & _ & _ & H1).
  split; [apply H2; vm_compute; split; discriminate|].
  split; [apply H3; right; vm_compute; reflexivity|].
  split; [apply H0; left; lia|].
  split; [reflexivity | exact H1].
Defined.

(** The scenario of the specification: twenty-five todos make three pages,
    and the third shows the todos 21 to 25. *)
Example pagination_of_25 :
  let s := mkState [] (replicate 25 Sample.walk) 3 (Sample.form "")
                   Sample.blank [] in
  totalPages s = 3
  /\ length (getPaginatedTodos s) = 5%nat
  /\ snd <$> renderPagination s = Some (21, 25, 25)
  /\ currentPage (goToPage 4 s) = 3.
Proof. repeat split. Qed.

(** ** The store: add *)

(** C6. [addTodo] fails with [ValidationError] exactly when the title is
    empty after trimming; it then ends at once, with no request attempted and
    the todos as they were. With a title, the request is the first effect, and
    when it is rejected the method ends on the [RemoteError] alert with the
    todos as they were when the rejection arrived. *)
Theorem addTodo_validation (s : State) :
  let title := JsString.trim (todoTitle (inputs s)) in
  (validationError (addTodo s) <-> title = "")
  /\ (title = "" ->
      addTodo s = Done (showError "Please enter a task title" s) tt
      /\ todos (showError "Please enter a task title" s) = todos s)
  /\ (title <> "" ->
      exists k,
        addTodo s = Call (showLoading s)
                         (AxiosPost (apiUrl ++ "/add") (submitted s)) k
        /\ todos (showLoading s) = todos s
        /\ forall e s', exists s'',
             k (inl e) s' = Done s'' tt
             /\ remoteError e s'' /\ todos s'' = todos s').
Proof.
  intros title. unfold validationError, addTodo. run_m. fold title.
  destruct (JsString.truthy title) eqn:Ht; run_m.
  - apply truthy_true in Ht. split; [|split].
    + split; [intros (s' & H & _); discriminate | contradiction].
    + contradiction.
    + intros _. eexists. split; [reflexivity|]. split; [reflexivity|].
      intros e s'. eexists. split; [reflexivity|]. repeat split.
  - apply truthy_false in Ht. split; [|split].
    + split; [auto|]. intros _. eexists. repeat split.
    + auto.
    + contradiction.
Qed.

Lemma addTodo_validation_witness :
  (exists k,
     addTodo Sample.store
     = Call (showLoading Sample.store)
            (AxiosPost (apiUrl ++ "/add") (submitted Sample.store)) k
     /\ todos (showLoading Sample.store) = todos Sample.store
     /\ forall e s', exists s'',
          k (inl e) s' = Done s'' tt
          /\ remoteError e s'' /\ todos s'' = todos s')
  /\ addTodo Sample.fresh
     = Done (showError "Please enter a task title" Sample.fresh) tt.
Proof.
  split.
  - apply (addTodo_validation Sample.store). discriminate.
  - apply (addTodo_validation Sample.fresh). reflexivity.
Defined.

(** A full run of [addTodo] against a service that is down leaves the todos
    as they were and reports the failure. *)
Example addTodo_offline :
  let s' := fst (run Sample.offline 0 (addTodo Sample.store)) in
  todos s' = todos Sample.store
  /\ errorMessage (alerts s') = "Failed to add todo: Network Error".
Proof. split; reflexivity. Qed.

(** What [addTodo] does with a reply, whatever it carries: the date of the
    day is read and the todo built from the reply is put in front of the
    todos of that moment. *)
Lemma addTodo_success (s : State) :
  let title := JsString.trim (todoTitle (inputs s)) in
  title <> "" ->
  exists k,
    addTodo s = Call (showLoading s)
                     (AxiosPost (apiUrl ++ "/add") (submitted s)) k
    /\ forall data s', exists k',
         k (inr data) s' = Call s' Today k'
         /\ forall today, exists s'',
              k' today s' = Done s'' tt
              /\ todos s''
                 = addedTodo data (length (todos s')) title today :: todos s'.
Proof.
  intros title Ht. apply truthy_true in Ht. unfold addTodo. run_m. fold title.
  rewrite Ht. run_m. eexists. split; [reflexivity|].
  intros data s'. eexists. split; [reflexivity|].
  intros today. eexists. split; reflexivity.
Qed.

(** The todos after a whole run of [addTodo] that gets a reply. *)
Lemma addTodo_run (w : World) (n : nat) (s : State) (data : Added.t) :
  JsString.trim (todoTitle (inputs s)) <> "" ->
  w n _ (AxiosPost (apiUrl ++ "/add") (submitted s)) = inr data ->
  todos (fst (run w n (addTodo s)))
  = addedTodo data (length (todos s)) (JsString.trim (todoTitle (inputs s)))
              (w (S n) _ Today)
    :: todos s.
Proof.
  intros Ht Hw. apply truthy_true in Ht. unfold addTodo. run_m.
  rewrite Ht. run_m. cbn [run]. unfold submitted in Hw. rewrite Hw.
  reflexivity.
Qed.

(** The title and the flag of the todo that is built from a reply that
    echoes what was submitted. *)
Lemma addedTodo_echoes (s : State) (data : Added.t) (len : nat)
    (today : string) :
  let title := JsString.trim (todoTitle (inputs s)) in
  title <> "" ->
  echoes (submitted s) data ->
  Todo.title (addedTodo data len title today) = title
  /\ Todo.completed (addedTodo data len title today) = false.
Proof.
  intros title Ht [Htitle Hflag]. simpl in *. split; [|exact Hflag].
  destruct Htitle as [-> | ->]; simpl; [|reflexivity].
  fold title. apply truthy_true in Ht. now rewrite Ht.
Qed.

(** A service that does not echo: it answers with another title and with the
    flag set, and the new todo has what the service sent. *)
Example addTodo_keeps_reply :
  let s' := fst (run (Sample.service (Sample.rewritten 9)) 0
                     (addTodo Sample.store)) in
  JsString.trim (todoTitle (inputs Sample.store)) = "Buy milk"
  /\ ~ echoes (submitted Sample.store)
              (Sample.rewritten 9 (submitted Sample.store))
  /\ todos s' = Todo.mk 9 "BUY MILK" true 5 "2024-06-01" :: todos Sample.store.
Proof.
  split; [reflexivity|]. split; [|reflexivity].
  intros [_ H]. discriminate.
Qed.

(** C7. When [addTodo] with a non-empty title succeeds, the service echoing
    what was submitted, the collection is the old collection with exactly one
    new todo in front, whose title is the given title, trimmed, and whose
    completed flag is false; the todos that were there are unchanged and in
    their order. With other things happening while the request is awaited,
    the old collection is the one of the moment the reply arrives. *)
Theorem addTodo_prepends (s : State) (data : Added.t) :
  let title := JsString.trim (todoTitle (inputs s)) in
  title <> "" ->
  echoes (submitted s) data ->
  (forall (w : World) (n : nat),
     w n _ (AxiosPost (apiUrl ++ "/add") (submitted s)) = inr data ->
     exists new,
       todos (fst (run w n (addTodo s))) = new :: todos s
       /\ Todo.title new = title
       /\ Todo.completed new = false)
  /\ exists k,
       addTodo s = Call (showLoading s)
                        (AxiosPost (apiUrl ++ "/add") (submitted s)) k
       /\ forall s', exists k',
            k (inr data) s' = Call s' Today k'
            /\ forall today, exists s'' new,
                 k' today s' = Done s'' tt
                 /\ todos s'' = new :: todos s'
                 /\ Todo.title new = title
                 /\ Todo.completed new = false.
Proof.
  intros title Ht Hecho. split.
  - intros w n Hw. eexists. split; [exact (addTodo_run w n s data Ht Hw)|].
    exact (addedTodo_echoes s data _ _ Ht Hecho).
  - destruct (addTodo_success s Ht) as (k & Hk & Hdata).
    exists k. split; [exact Hk|]. intros s'.
    destruct (Hdata data s') as (k' & Hk' & Htoday).
    exists k'. split; [exact Hk'|]. intros today.
    destruct (Htoday today) as (s'' & Hs'' & Htodos).
    exists s'', (addedTodo data (length (todos s')) title today).
    split; [exact Hs''|]. split; [exact Htodos|].
    exact (addedTodo_echoes s data _ _ Ht Hecho).
Qed.

Lemma addTodo_prepends_witness :
  exists new,
    todos (fst (run (Sample.service (Sample.echo 255)) 0
                    (addTodo Sample.store)))
    = new :: todos Sample.store
    /\ Todo.title new = "Buy milk"
    /\ Todo.completed new = false.
Proof.
  destruct (addTodo_prepends Sample.store
              (Sample.echo 255 (submitted Sample.store)))
    as [Hrun _].
  - discriminate.
  - split; [left|]; reflexivity.
  - apply (Hrun (Sample.service (Sample.echo 255)) 0%nat). reflexivity.
Defined.

(** The scenario of the specification: the service echoes the add. *)
Example addTodo_buy_milk :
  let s' := fst (run (Sample.service (Sample.echo 255)) 0
                     (addTodo Sample.store)) in
  todos s' = Todo.mk 255 "Buy milk" false 5 "2024-06-01" :: todos Sample.store.
Proof. reflexivity. Qed.

(** ** The store: toggle *)

Lemma toggled_toggled todo : toggled (toggled todo) = todo.
Proof. destruct todo; unfold toggled; simpl. now rewrite negb_involutive. Qed.

Lemma find_absent (T : list Todo.t) (todoId : Z) :
  todoId ∉ Todo.id <$> T ->
  list_find (fun todo => Todo.id todo = todoId) T = None.
Proof.
  intros H. apply list_find_None, Forall_forall. intros todo Hin Hid.
  apply H, list_elem_of_fmap. eauto.
Qed.

Lemma find_present (T : list Todo.t) (todoId : Z) :
  todoId ∈ Todo.id <$> T ->
  exists i todo,
    list_find (fun todo => Todo.id todo = todoId) T = Some (i, todo).
Proof.
  intros (todo & Hid & Hin)%list_elem_of_fmap.
  destruct (list_find_elem_of (fun todo => Todo.id todo = todoId) T todo)
    as [[i t] Hf]; eauto.
Qed.

(** The second [findIndex] finds the todo that the first toggle put there. *)
Lemma find_toggled (T : list Todo.t) (todoId : Z) i todo :
  list_find (fun todo => Todo.id todo = todoId) T = Some (i, todo) ->
  list_find (fun todo => Todo.id todo = todoId) (<[i := toggled todo]> T)
  = Some (i, toggled todo).
Proof.
  intros (Hi & Hid & Hbefore)%list_find_Some. apply list_find_Some.
  split; [|split].
  - apply list_lookup_insert_eq. eapply lookup_lt_Some, Hi.
  - exact Hid.
  - intros j y Hj Hlt. rewrite list_lookup_insert_ne in Hj by lia. eauto.
Qed.

(** The todos after a whole run of [toggleTodo], whatever the service
    answers. *)
Lemma toggleTodo_run (w : World) (n : nat) (s : State) (todoId : Z) :
  todos (fst (run w n (toggleTodo todoId s)))
  = match list_find (fun todo => Todo.id todo = todoId) (todos s) with
    | Some (i, todo) => <[i := toggled todo]> (todos s)
    | None => todos s
    end.
Proof.
  unfold toggleTodo. run_m.
  destruct (list_find _ _) as [[i todo]|]; run_m; [|reflexivity].
  cbn [run]. destruct (w n _ _) as [e|[]]; reflexivity.
Qed.

(** C8. [toggleTodo] does nothing when no todo has the id. When one has it,
    the first such todo is replaced at once by its copy with [completed]
    flipped, before the request is made; when the request is rejected the
    method ends with the todos and the alerts as they are, only the console
    gets a line. No run of [toggleTodo] ends in an error. *)
Theorem toggleTodo_optimistic (s : State) (todoId : Z) :
  (todoId ∉ ids s -> toggleTodo todoId s = Done s tt)
  /\ (todoId ∈ ids s ->
      exists i todo s1 k,
        list_find (fun todo => Todo.id todo = todoId) (todos s) = Some (i, todo)
        /\ toggleTodo todoId s
           = Call s1 (AxiosPut (apiUrl ++ "/" ++ numberToString todoId)
                               (negb (Todo.completed todo))) k
        /\ todos s1 = <[i := toggled todo]> (todos s)
        /\ todos s1 !! i = Some (toggled todo)
        /\ Todo.completed (toggled todo) = negb (Todo.completed todo)
        /\ forall e s', exists s'',
             k (inl e) s' = Done s'' tt
             /\ todos s'' = todos s' /\ alerts s'' = alerts s')
  /\ returns (toggleTodo todoId s).
Proof.
  split; [|split].
  - intros H. unfold toggleTodo. run_m. unfold ids in H.
    now rewrite (find_absent _ _ H).
  - intros H. destruct (find_present _ _ H) as (i & todo & Hf).
    exists i, todo. unfold toggleTodo. run_m. rewrite Hf. run_m.
    do 2 eexists. split; [reflexivity|]. split; [reflexivity|].
    split; [reflexivity|]. split.
    + apply list_find_Some in Hf as (Hi & _). simpl.
      apply list_lookup_insert_eq. eapply lookup_lt_Some, Hi.
    + split; [reflexivity|]. intros e s'. eexists. repeat split.
  - unfold returns, finally, toggleTodo. run_m.
    destruct (list_find _ _) as [[i todo]|]; run_m; [|eauto].
    split; [exact I|]. intros [e|[]] s' _; run_m; eauto.
Qed.

Lemma toggleTodo_optimistic_witness :
  toggleTodo 7 Sample.store = Done Sample.store tt
  /\ exists i todo s1 k,
       list_find (fun todo => Todo.id todo = 2) (todos Sample.store)
       = Some (i, todo)
       /\ toggleTodo 2 Sample.store
          = Call s1 (AxiosPut (apiUrl ++ "/" ++ numberToString 2)
                              (negb (Todo.completed todo))) k
       /\ todos s1 = <[i := toggled todo]> (todos Sample.store)
       /\ todos s1 !! i = Some (toggled todo)
       /\ Todo.completed (toggled todo) = negb (Todo.completed todo)
       /\ forall e s', exists s'',
            k (inl e) s' = Done s'' tt
            /\ todos s'' = todos s' /\ alerts s'' = alerts s'.
Proof.
  split.
  - apply (toggleTodo_optimistic Sample.store 7).
    apply (bool_decide_unpack _); vm_compute; exact I.
  - apply (toggleTodo_optimistic Sample.store 2).
    apply (bool_decide_unpack _); vm_compute; exact I.
Defined.

(** The scenario of the specification: the service is down, the flip stays. *)
Example toggleTodo_offline :
  run Sample.offline 0 (toggleTodo 2 Sample.store)
  = (log "Server update failed, keeping local change: Network Error"
         (applyFilters
            (set_todos [Sample.walk; toggled Sample.read; Sample.milk]
                       Sample.store)),
     inl tt).
Proof. reflexivity. Qed.

(** The todos when [toggleTodo] stands at its request are those it ends
    with. *)
Lemma toggleTodo_suspended (s : State) (todoId : Z) :
  todos (st (suspended [] (toggleTodo todoId s)))
  = match list_find (fun todo => Todo.id todo = todoId) (todos s) with
    | Some (i, todo) => <[i := toggled todo]> (todos s)
    | None => todos s
    end.
Proof.
  unfold toggleTodo. run_m.
  destruct (list_find _ _) as [[i todo]|]; reflexivity.
Qed.

(** C9. Toggling a todo that is in the store twice in a row gives it back
    its [completed] flag, and leaves the collection as it was, whatever the
    service answers to the two requests; the same holds when the second
    toggle comes before the answer to the first. *)
Theorem toggleTodo_twice (s : State) (todoId : Z) (w1 w2 : World)
    (n1 n2 : nat) :
  todoId ∈ ids s ->
  let s1 := fst (run w1 n1 (toggleTodo todoId s)) in
  let s2 := fst (run w2 n2 (toggleTodo todoId s1)) in
  let early := st (suspended [] (toggleTodo todoId s)) in
  exists i todo,
    list_find (fun todo => Todo.id todo = todoId) (todos s) = Some (i, todo)
    /\ Todo.completed <$> todos s1 !! i = Some (negb (Todo.completed todo))
    /\ Todo.completed <$> todos s2 !! i = Some (Todo.completed todo)
    /\ todos s2 = todos s
    /\ todos (fst (run w2 n2 (toggleTodo todoId early))) = todos s.
Proof.
  intros H s1 s2 early. destruct (find_present _ _ H) as (i & todo & Hf).
  exists i, todo. split; [exact Hf|].
  assert (todos s1 = <[i := toggled todo]> (todos s)) as H1.
  { unfold s1. now rewrite toggleTodo_run, Hf. }
  assert (todos early = <[i := toggled todo]> (todos s)) as He.
  { unfold early. now rewrite toggleTodo_suspended, Hf. }
  assert (forall s', todos s' = <[i := toggled todo]> (todos s) ->
                     todos (fst (run w2 n2 (toggleTodo todoId s'))) = todos s)
    as Hback.
  { intros s' Hs'. rewrite toggleTodo_run, Hs', (find_toggled _ _ _ _ Hf).
    rewrite list_insert_insert_eq, toggled_toggled.
    apply list_insert_id. now apply list_find_Some in Hf as (Hi & _). }
  assert (todos s2 = todos s) as H2 by (apply Hback, H1).
  apply list_find_Some in Hf as (Hi & _).
  rewrite H1, H2, Hi.
  rewrite list_lookup_insert_eq by (eapply lookup_lt_Some, Hi).
  auto.
Qed.

Lemma toggleTodo_twice_witness :
  let s1 := fst (run Sample.offline 0 (toggleTodo 2 Sample.store)) in
  let s2 := fst (run (Sample.service (Sample.echo 4)) 0 (toggleTodo 2 s1)) in
  let early := st (suspended [] (toggleTodo 2 Sample.store)) in
  exists i todo,
    list_find (fun todo => Todo.id todo = 2) (todos Sample.store)
    = Some (i, todo)
    /\ Todo.completed <$> todos s1 !! i = Some (negb (Todo.completed todo))
    /\ Todo.completed <$> todos s2 !! i = Some (Todo.completed todo)
    /\ todos s2 = todos Sample.store
    /\ todos (fst (run (Sample.service (Sample.echo 4)) 0
                       (toggleTodo 2 early)))
       = todos Sample.store.
Proof.
  apply (toggleTodo_twice Sample.store 2 Sample.offline
                          (Sample.service (Sample.echo 4)) 0 0).
  apply (bool_decide_unpack _); vm_compute; exact I.
Defined.

(** ** The store: delete *)

Lemma filter_id_absent (T : list Todo.t) (todoId : Z) :
  todoId ∉ Todo.id <$> T ->
  List.filter (fun todo => negb (Todo.id todo =? todoId)) T = T.
Proof.
  induction T as [|todo T IH]; [reflexivity|].
  rewrite fmap_cons, not_elem_of_cons. intros [Hne Hnot]. simpl.
  destruct (Z.eqb_spec (Todo.id todo) todoId) as [Heq|_]; [congruence|].
  simpl. now rewrite IH.
Qed.

(** C10. [deleteTodo] asks for confirmation first and does nothing when it is
    declined. A confirmed delete replaces the collection at once by the
    ordered sublist of the todos whose id differs from the given one, so
    every todo with that id goes and the others keep their order; when no
    todo has the id the collection is the same. The answer of the service,
    either way, leaves the todos as they are. *)
Theorem deleteTodo_removes (s : State) (todoId : Z) :
  exists k,
    deleteTodo todoId s
    = Call s (Confirm "Are you sure you want to delete this todo?") k
    /\ k false s = Done s tt
    /\ exists s1 k',
         k true s
         = Call s1 (AxiosDelete (apiUrl ++ "/" ++ numberToString todoId)) k'
         /\ selects (fun todo => Todo.id todo <> todoId) (todos s) (todos s1)
         /\ (todoId ∉ ids s1)
         /\ (todoId ∉ ids s -> todos s1 = todos s)
         /\ forall answer s', exists s'',
              k' answer s' = Done s'' tt /\ todos s'' = todos s'.
Proof.
  unfold deleteTodo. run_m. eexists. split; [reflexivity|].
  split; [reflexivity|]. run_m. do 2 eexists. split; [reflexivity|].
  assert (selects (fun todo => Todo.id todo <> todoId) (todos s)
            (List.filter (fun todo => negb (Todo.id todo =? todoId)) (todos s)))
    as Hsel.
  { apply selects_filter. intros todo.
    rewrite negb_true_iff, Z.eqb_neq. reflexivity. }
  split; [exact Hsel|]. split; [|split].
  - unfold ids. simpl. intros (todo & Hid & Hin)%list_elem_of_fmap.
    apply (selects_elem_of _ _ _ Hsel) in Hin as [_ Hne]. congruence.
  - intros H. simpl. now apply filter_id_absent.
  - intros [e|[]] s'; eexists; split; reflexivity.
Qed.

Lemma deleteTodo_removes_witness :
  exists k,
    deleteTodo 7 Sample.store
    = Call Sample.store (Confirm "Are you sure you want to delete this todo?") k
    /\ k false Sample.store = Done Sample.store tt
    /\ exists s1 k',
         k true Sample.store
         = Call s1 (AxiosDelete (apiUrl ++ "/" ++ numberToString 7)) k'
         /\ selects (fun todo => Todo.id todo <> 7)
                    (todos Sample.store) (todos s1)
         /\ (7 ∉ ids s1)
         /\ (7 ∉ ids Sample.store -> todos s1 = todos Sample.store)
         /\ forall answer s', exists s'',
              k' answer s' = Done s'' tt /\ todos s'' = todos s'.
Proof. apply (deleteTodo_removes Sample.store 7). Defined.

(** Two todos with the id: both go. *)
Example deleteTodo_all_with_id :
  let twice := set_todos [Sample.walk; Sample.read; toggled Sample.walk]
                         Sample.store in
  todos (fst (run Sample.offline 0 (deleteTodo 1 twice))) = [Sample.read].
Proof. reflexivity. Qed.

(** ** The store: unique ids *)

Lemma always_unique_toggleTodo (s : State) (todoId : Z) :
  uniqueIds s -> always uniqueIds (toggleTodo todoId s).
Proof.
  intros Hs. unfold always, toggleTodo. run_m.
  destruct (list_find _ _) as [[i todo]|] eqn:Hf; run_m; [|exact Hs].
  apply list_find_Some in Hf as (Hi & _).
  assert (uniqueIds (applyFilters
                       (set_todos (<[i:=toggled todo]> (todos s)) s))) as H1.
  { unfold uniqueIds, ids in *. simpl.
    rewrite list_fmap_insert. simpl.
    rewrite list_insert_id; [exact Hs|]. now rewrite list_lookup_fmap, Hi. }
  split; [exact H1|]. intros [e|[]] s' Hs'; run_m; exact Hs'.
Qed.

Lemma always_unique_deleteTodo (s : State) (todoId : Z) :
  uniqueIds s -> always uniqueIds (deleteTodo todoId s).
Proof.
  intros Hs. unfold always, deleteTodo. run_m.
  split; [exact Hs|]. intros [|] s' Hs'; run_m; [|exact Hs'].
  assert (uniqueIds (applyFilters
            (set_todos (List.filter
                          (fun todo => negb (Todo.id todo =? todoId))
                          (todos s')) s'))) as H1.
  { unfold uniqueIds, ids in *. simpl.
    apply (sublist_NoDup _ _ Hs'). apply fmap_sublist.
    apply (selects_sublist
             (fun todo => negb (Todo.id todo =? todoId) = true)).
    apply selects_filter. reflexivity. }
  split; [exact H1|]. intros [e|[]] s'' Hs''; run_m; exact Hs''.
Qed.

(** [loadTodos]: the request is the first effect; a rejection leaves the
    todos as they are and reports the failure; a list replaces the todos by
    the todos built from it. *)
Lemma loadTodos_replaces (s : State) :
  exists k,
    loadTodos s = Call (showLoading s) (AxiosGet apiUrl) k
    /\ (forall e s', exists s'',
          k (inl e) s' = Done s'' tt
          /\ todos s'' = todos s'
          /\ errorMessage (alerts s'') = "Failed to load todos: " ++ e)
    /\ (forall listed s',
          finally (fun s'' o => o = inl tt /\ loadedFrom listed (todos s''))
                  (k (inr listed) s')).
Proof.
  unfold loadTodos. run_m. eexists. split; [reflexivity|]. split.
  - intros e s'. eexists. repeat split.
  - intros listed s'. unfold finally. run_m.
    apply post_catch, post_bind, post_mapM_loaded; [exact I|].
    intros s'' built _ Hb. run_m. split; [reflexivity | exact Hb].
Qed.

(** C1 as stated fails for the add: the service numbers the new todo 3,
    which is the id of a todo of the store, and the program takes the id as
    it comes. *)
Lemma addTodo_duplicates_id :
  let s' := fst (run (Sample.service (Sample.echo 3)) 0
                     (addTodo Sample.store)) in
  uniqueIds Sample.store /\ ids s' = [3; 1; 2; 3] /\ ~ uniqueIds s'.
Proof.
  split; [|split].
  - apply (bool_decide_unpack _); vm_compute; exact I.
  - reflexivity.
  - apply (bool_decide_unpack _); vm_compute; exact I.
Qed.

(** An id made from the length can be taken too: after the todo 1 is
    deleted, two todos are left and the next unnumbered add gets the id 3. *)
Example addTodo_length_id_taken :
  let s1 := fst (run (Sample.service Sample.unnumbered) 0
                     (deleteTodo 1 Sample.store)) in
  let s2 := fst (run (Sample.service Sample.unnumbered) 0 (addTodo s1)) in
  ids s1 = [2; 3] /\ ids s2 = [3; 2; 3].
Proof. split; reflexivity. Qed.

(** C1, amended. [toggleTodo] and [deleteTodo] keep the ids of the store
    pairwise distinct. [loadTodos] leaves the ids that the service listed, in
    order, so they are distinct exactly when the listed ids are. A successful
    [addTodo] whose reply carries an id that is not zero puts that id in
    front of the ids of the store, so they stay distinct exactly when the
    store did not have that id. *)
Theorem uniqueIds_operations (s : State) :
  (forall todoId, uniqueIds s -> always uniqueIds (toggleTodo todoId s))
  /\ (forall todoId, uniqueIds s -> always uniqueIds (deleteTodo todoId s))
  /\ (exists k,
        loadTodos s = Call (showLoading s) (AxiosGet apiUrl) k
        /\ forall listed s',
             finally (fun s'' _ =>
                        ids s'' = RemoteTodo.id <$> listed
                        /\ (uniqueIds s'' <-> NoDup (RemoteTodo.id <$> listed)))
                     (k (inr listed) s'))
  /\ (JsString.trim (todoTitle (inputs s)) <> "" ->
      exists k,
        addTodo s = Call (showLoading s)
                         (AxiosPost (apiUrl ++ "/add") (submitted s)) k
        /\ forall data id s',
             Added.id data = Some id -> id <> 0 ->
             exists k',
               k (inr data) s' = Call s' Today k'
               /\ forall today, exists s'',
                    k' today s' = Done s'' tt
                    /\ ids s'' = id :: ids s'
                    /\ (uniqueIds s'' <-> (id ∉ ids s') /\ uniqueIds s')).
Proof.
  split; [intros; now apply always_unique_toggleTodo|].
  split; [intros; now apply always_unique_deleteTodo|].
  split.
  - destruct (loadTodos_replaces s) as (k & Hk & _ & Hl).
    exists k. split; [exact Hk|]. intros listed s'.
    eapply post_mono; [|apply Hl]. intros s'' o [_ Hb]. simpl.
    apply loadedFrom_ids in Hb. unfold uniqueIds, ids. now rewrite Hb.
  - intros Ht. destruct (addTodo_success s Ht) as (k & Hk & Hdata).
    exists k. split; [exact Hk|]. intros data id s' Hid Hnz.
    destruct (Hdata data s') as (k' & Hk' & Htoday).
    exists k'. split; [exact Hk'|]. intros today.
    destruct (Htoday today) as (s'' & Hs'' & Htodos).
    exists s''. split; [exact Hs''|].
    assert (ids s'' = id :: ids s') as Hids.
    { unfold ids. rewrite Htodos, fmap_cons. f_equal. simpl.
      rewrite Hid. simpl. apply Z.eqb_neq in Hnz. now rewrite Hnz. }
    split; [exact Hids|]. unfold uniqueIds. rewrite Hids. apply NoDup_cons.
Qed.

Lemma uniqueIds_operations_witness :
  always uniqueIds (toggleTodo 2 Sample.store)
  /\ always uniqueIds (deleteTodo 2 Sample.store)
  /\ exists k,
       addTodo Sample.store
       = Call (showLoading Sample.store)
              (AxiosPost (apiUrl ++ "/add") (submitted Sample.store)) k
       /\ forall data id s',
            Added.id data = Some id -> id <> 0 ->
            exists k',
              k (inr data) s' = Call s' Today k'
              /\ forall today, exists s'',
                   k' today s' = Done s'' tt
                   /\ ids s'' = id :: ids s'
                   /\ (uniqueIds s'' <-> (id ∉ ids s') /\ uniqueIds s').
Proof.
  assert (uniqueIds Sample.store) as Hu
    by (apply (bool_decide_unpack _); vm_compute; exact I).
  destruct (uniqueIds_operations Sample.store) as (Ht & Hd & _ & Ha).
  split; [apply Ht, Hu|]. split; [apply Hd, Hu|]. apply Ha. discriminate.
Defined.

(** * Further properties of the program *)

(** ** [escapeHtml] *)

Lemma chars_app a b : chars (a ++ b) = (chars a ++ chars b)%list.
Proof.
  induction a as [|c a IH]; [reflexivity|].
  simpl. unfold chars in *. simpl. now rewrite IH.
Qed.

Lemma string_length_app a b :
  String.length (a ++ b) = (String.length a + String.length b)%nat.
Proof. induction a as [|c a IH]; simpl; [reflexivity | now rewrite IH]. Qed.

(** The six cases of [escapeChar]. *)
Lemma escapeChar_cases c :
  (isMarkup c = true
   /\ (c = "&"%char /\ escapeChar c = "&amp;"
       \/ c = "<"%char /\ escapeChar c = "&lt;"
       \/ c = ">"%char /\ escapeChar c = "&gt;"
       \/ c = "034"%char /\ escapeChar c = "&quot;"
       \/ c = "'"%char /\ escapeChar c = "&#039;"))
  \/ (isMarkup c = false /\ escapeChar c = String c ""
      /\ c <> "&"%char /\ c <> "<"%char /\ c <> ">"%char
      /\ c <> "034"%char /\ c <> "'"%char).
Proof.
  unfold isMarkup, escapeChar.
  destruct (Ascii.eqb_spec c "&") as [->|?]; [left; auto 12|].
  destruct (Ascii.eqb_spec c "<") as [->|?]; [left; auto 12|].
  destruct (Ascii.eqb_spec c ">") as [->|?]; [left; auto 12|].
  destruct (Ascii.eqb_spec c "034") as [->|?]; [left; auto 12|].
  destruct (Ascii.eqb_spec c "'") as [->|?]; [left; auto 12|].
  right. auto 12.
Qed.

(** What replaces a character has none of the four. *)
Lemma escapeChar_safe (c : ascii) :
  Forall (fun c => c <> "<" /\ c <> ">" /\ c <> "034" /\ c <> "'")%char
         (chars (escapeChar c)).
Proof.
  destruct (escapeChar_cases c)
    as [[_ [[_ ->]|[[_ ->]|[[_ ->]|[[_ ->]|[_ ->]]]]]]|(_ & -> & H)];
    unfold chars; simpl; repeat constructor; try discriminate; tauto.
Qed.

(** The escaped text is made of the replacements of its characters. *)
Lemma chars_escapeHtml (text : string) :
  chars (escapeHtml text) = chars text ≫= (fun c => chars (escapeChar c)).
Proof.
  induction text as [|c r IH]; [reflexivity|].
  cbn [escapeHtml]. rewrite chars_app, IH. reflexivity.
Qed.

(** [escapeHtml] leaves none of the characters that open or close a tag or
    an attribute value in its result. *)
Theorem escapeHtml_no_markup (text : string) :
  Forall (fun c => c <> "<" /\ c <> ">" /\ c <> "034" /\ c <> "'")%char
         (chars (escapeHtml text)).
Proof.
  induction text as [|c r IH]; [constructor|].
  cbn [escapeHtml]. rewrite chars_app. apply Forall_app.
  split; [apply escapeChar_safe | exact IH].
Qed.

(** Two texts with the same escaped form are the same text. *)
Theorem escapeHtml_injective (a b : string) :
  escapeHtml a = escapeHtml b -> a = b.
Proof.
  revert b. induction a as [|c a IH]; intros [|d b] H; cbn [escapeHtml] in H.
  - reflexivity.
  - destruct (escapeChar_cases d)
      as [[_ [[_ E]|[[_ E]|[[_ E]|[[_ E]|[_ E]]]]]]|(_ & E & _)];
      rewrite E in H; discriminate.
  - destruct (escapeChar_cases c)
      as [[_ [[_ E]|[[_ E]|[[_ E]|[[_ E]|[_ E]]]]]]|(_ & E & _)];
      rewrite E in H; discriminate.
  - assert (c = d /\ escapeHtml a = escapeHtml b) as [-> E].
    { destruct (escapeChar_cases c)
        as [[_ [[-> Ec]|[[-> Ec]|[[-> Ec]|[[-> Ec]|[-> Ec]]]]]]
           |(_ & Ec & ? & ? & ? & ? & ?)];
      destruct (escapeChar_cases d)
        as [[_ [[-> Ed]|[[-> Ed]|[[-> Ed]|[[-> Ed]|[-> Ed]]]]]]
           |(_ & Ed & ? & ? & ? & ? & ?)];
      rewrite ?Ec, ?Ed in H; simpl in H; try discriminate;
      injection H; intros; subst; try contradiction; auto. }
    f_equal. now apply IH.
Qed.

Lemma escapeHtml_injective_witness : "a<b" = "a<b".
Proof. apply (escapeHtml_injective "a<b" "a<b"). reflexivity. Defined.

Lemma length_escapeHtml text :
  (String.length text <= String.length (escapeHtml text))%nat.
Proof.
  induction text as [|c r IH]; cbn [escapeHtml String.length]; [lia|].
  rewrite string_length_app.
  destruct (escapeChar_cases c)
    as [[_ [[_ ->]|[[_ ->]|[[_ ->]|[[_ ->]|[_ ->]]]]]]|(_ & -> & _)];
    simpl; lia.
Qed.

(** [escapeHtml] returns the text itself exactly when the text has none of
    the five characters. *)
Theorem escapeHtml_identity (text : string) :
  escapeHtml text = text <-> Forall (fun c => isMarkup c = false) (chars text).
Proof.
  induction text as [|c r IH]; [split; [constructor | reflexivity]|].
  cbn [escapeHtml]. change (chars (String c r)) with (c :: chars r).
  rewrite Forall_cons, <- IH.
  destruct (escapeChar_cases c)
    as [[Hm [[_ E]|[[_ E]|[[_ E]|[[_ E]|[_ E]]]]]]|(Hm & E & _)];
    rewrite E; simpl.
  1-5: split; [|intros [? _]; congruence]; intros H;
       apply (f_equal String.length) in H; simpl in H;
       pose proof (length_escapeHtml r); lia.
  split; [intros H; injection H; auto | intros [_ ->]; reflexivity].
Qed.

(** ** The pages of the filtered list *)

(** [slice] between two indices that are not negative, in order. *)
Lemma slice_block {A} (xs : list A) (a b : Z) :
  0 <= a <= b ->
  slice xs a b = take (Z.to_nat (b - a)) (drop (Z.to_nat a) xs).
Proof.
  intros H. unfold slice.
  destruct (Z.ltb_spec a 0) as [?|_]; [lia|].
  destruct (Z.ltb_spec b 0) as [?|_]; [lia|].
  destruct (Z.le_gt_cases (Z.of_nat (length xs)) a) as [Ha|Ha].
  - rewrite Z.min_r by lia.
    rewrite !drop_ge by lia. now rewrite !take_nil.
  - rewrite (Z.min_l a) by lia.
    destruct (Z.le_gt_cases b (Z.of_nat (length xs))) as [Hb|Hb].
    + now rewrite Z.min_l by lia.
    + rewrite Z.min_r by lia.
      rewrite !take_ge; [reflexivity | rewrite length_drop; lia..].
Qed.

(** From page 1 on, the page is the block of ten at its place. *)
Lemma pageOf_block (s : State) (page : Z) :
  1 <= page ->
  pageOf s page
  = take 10 (drop (10 * Z.to_nat (page - 1)) (filteredTodos s)).
Proof.
  intros H. unfold pageOf, getPaginatedTodos, todosPerPage.
  change (currentPage (set_currentPage page s)) with page.
  change (filteredTodos (set_currentPage page s)) with (filteredTodos s).
  rewrite slice_block by lia. f_equal; [lia|]. f_equal. lia.
Qed.

Lemma pageOf_current (s : State) :
  pageOf s (currentPage s) = getPaginatedTodos s.
Proof. reflexivity. Qed.

Lemma concat_blocks {A} (l : list A) (m : nat) :
  concat ((fun i => take 10 (drop (10 * i) l)) <$> seq 0 m) = take (10 * m) l.
Proof.
  induction m as [|m IH]; [now rewrite Nat.mul_0_r|].
  rewrite seq_S, fmap_app, concat_app, IH. simpl.
  rewrite app_nil_r, take_take_drop. f_equal. lia.
Qed.

(** Every page from 1 on holds at most ten todos, which stand together in the
    filtered list, and the pages 1 to [totalPages], one after the other, are
    the filtered list. *)
Theorem pages_cover (s : State) :
  concat (pageOf s <$> seqZ 1 (totalPages s)) = filteredTodos s
  /\ forall page, 1 <= page ->
       (length (pageOf s page) <= 10)%nat
       /\ exists before after,
            filteredTodos s = (before ++ pageOf s page ++ after)%list
            /\ Z.of_nat (length before) =
               Z.min (10 * (page - 1)) (Z.of_nat (length (filteredTodos s))).
Proof.
  split.
  - unfold seqZ. rewrite <- list_fmap_compose.
    rewrite (list_fmap_ext _
               (fun i => take 10 (drop (10 * i) (filteredTodos s)))).
    + rewrite concat_blocks. apply take_ge.
      pose proof (totalPages_ceiling s) as H.
      unfold isCeiling, todosPerPage in H. lia.
    + intros _ i _. unfold compose. rewrite pageOf_block by lia.
      do 2 f_equal. lia.
  - intros page H. rewrite pageOf_block by exact H. split.
    + rewrite length_take. lia.
    + set (d := (10 * Z.to_nat (page - 1))%nat).
      exists (take d (filteredTodos s)), (drop 10 (drop d (filteredTodos s))).
      split.
      * now rewrite take_drop, take_drop.
      * rewrite length_take. lia.
Qed.

Lemma pages_cover_witness :
  (length (pageOf Sample.store 1) <= 10)%nat
  /\ exists before after,
       filteredTodos Sample.store
       = (before ++ pageOf Sample.store 1 ++ after)%list
       /\ Z.of_nat (length before) =
          Z.min (10 * (1 - 1)) (Z.of_nat (length (filteredTodos Sample.store))).
Proof. apply (pages_cover Sample.store). lia. Defined.

(** The number of todos of a page from 1 on. *)
Lemma pageOf_size (s : State) (page : Z) :
  1 <= page ->
  Z.of_nat (length (pageOf s page))
  = Z.max 0 (Z.min 10 (Z.of_nat (length (filteredTodos s))
                       - 10 * (page - 1))).
Proof.
  intros H. rewrite pageOf_block by exact H.
  rewrite length_take, length_drop. lia.
Qed.

(** A page that exists is not empty. *)
Lemma pageOf_nonempty (s : State) (page : Z) :
  1 <= page <= totalPages s -> pageOf s page <> [].
Proof.
  intros H. pose proof (pageOf_size s page ltac:(lia)) as Hlen.
  pose proof (totalPages_ceiling s) as Hc.
  unfold isCeiling, todosPerPage in Hc.
  rewrite <- length_zero_iff_nil. lia.
Qed.

(** From page 1 on, the page is empty exactly when it lies beyond the last
    page; otherwise it holds ten todos, or what is left of the list. *)
Theorem pageOf_length (s : State) (page : Z) :
  1 <= page ->
  (pageOf s page = [] <-> totalPages s < page)
  /\ Z.of_nat (length (pageOf s page))
     = Z.max 0 (Z.min 10 (Z.of_nat (length (filteredTodos s))
                          - 10 * (page - 1))).
Proof.
  intros H. pose proof (pageOf_size s page H) as Hlen.
  split; [|exact Hlen].
  destruct (Z.lt_ge_cases (totalPages s) page) as [Hbeyond|Hwithin].
  - split; [intros _; exact Hbeyond|]. intros _.
    pose proof (totalPages_ceiling s) as Hc.
    unfold isCeiling, todosPerPage in Hc.
    apply length_zero_iff_nil. lia.
  - split; [|lia]. intros Hnil. exfalso.
    now apply (pageOf_nonempty s page ltac:(lia)).
Qed.

Lemma pageOf_length_witness :
  (pageOf Sample.store 2 = [] <-> totalPages Sample.store < 2)
  /\ Z.of_nat (length (pageOf Sample.store 2))
     = Z.max 0 (Z.min 10 (Z.of_nat (length (filteredTodos Sample.store))
                          - 10 * (2 - 1))).
Proof. apply (pageOf_length Sample.store 2). lia. Defined.

(** ** The page controls *)

(** The range label counts the todos of the page that is shown, and there
    are no controls exactly when the filtered list has at most ten todos. *)
Theorem renderPagination_label (s : State) :
  (renderPagination s = None
   <-> (length (filteredTodos s) <= 10)%nat)
  /\ (1 <= currentPage s <= totalPages s -> 1 < totalPages s ->
      let first := (currentPage s - 1) * 10 in
      snd <$> renderPagination s
      = Some (first + 1,
              first + Z.of_nat (length (getPaginatedTodos s)),
              Z.of_nat (length (filteredTodos s)))).
Proof.
  pose proof (totalPages_ceiling s) as Hc.
  unfold isCeiling, todosPerPage in Hc. split.
  - unfold renderPagination.
    destruct (Z.leb_spec (totalPages s) 1); split; intros;
      (discriminate || lia || reflexivity).
  - intros Hk Ht first. unfold renderPagination.
    destruct (Z.leb_spec (totalPages s) 1) as [?|_]; [lia|].
    pose proof (pageOf_size s (currentPage s) ltac:(lia)) as Hlen.
    rewrite pageOf_current in Hlen. cbn [fmap option_fmap option_map snd].
    unfold first, todosPerPage. rewrite Hlen.
    replace (Z.min (currentPage s * 10) (Z.of_nat (length (filteredTodos s))))
      with ((currentPage s - 1) * 10
            + Z.max 0 (Z.min 10 (Z.of_nat (length (filteredTodos s))
                                 - 10 * (currentPage s - 1)))) by lia.
    reflexivity.
Qed.

Lemma renderPagination_label_witness :
  let s := mkState [] (replicate 25 Sample.walk) 3 (Sample.form "")
                   Sample.blank [] in
  snd <$> renderPagination s
  = Some ((3 - 1) * 10 + 1,
          (3 - 1) * 10 + Z.of_nat (length (getPaginatedTodos s)),
          Z.of_nat (length (filteredTodos s))).
Proof.
  intros s. apply (renderPagination_label s); vm_compute; split; congruence.
Defined.

Lemma renderPagination_items (s : State) :
  fst <$> renderPagination s
  = if totalPages s <=? 1 then None
    else Some ([Previous (currentPage s =? 1) (currentPage s - 1)]
               ++ pageNumbers (currentPage s) (totalPages s)
               ++ [Next (currentPage s =? totalPages s)
                        (currentPage s + 1)])%list.
Proof.
  unfold renderPagination. destruct (totalPages s <=? 1); reflexivity.
Qed.

Lemma elem_of_pageNumber current total i item :
  item ∈ pageNumber current total i
  <-> (item = PageLink i (i =? current)
       /\ (i = 1 \/ i = total \/ Z.abs (i - current) <= 2))
      \/ (item = Ellipsis
          /\ i <> 1 /\ i <> total /\ Z.abs (i - current) = 3).
Proof.
  unfold pageNumber.
  destruct (Z.eqb_spec i 1); destruct (Z.eqb_spec i total);
    destruct (Z.leb_spec (Z.abs (i - current)) 2);
    destruct (Z.eqb_spec (Z.abs (i - current)) 3); simpl;
    rewrite ?list_elem_of_singleton, ?elem_of_nil;
    intuition (congruence || lia).
Qed.

Lemma ellipsis_bound current total (l : list Z) :
  (length (List.filter isEllipsis (l ≫= pageNumber current total))
   <= length (filter (fun i => Z.abs (i - current) = 3)%Z l))%nat.
Proof.
  induction l as [|i l IH]; [reflexivity|].
  rewrite bind_cons, List.filter_app, length_app, filter_cons.
  unfold pageNumber at 1.
  destruct ((i =? 1) || (i =? total) || (Z.abs (i - current) <=? 2));
    [simpl; case_decide; simpl; lia|].
  destruct (Z.eqb_spec (Z.abs (i - current)) 3);
    case_decide; simpl; lia.
Qed.

Lemma ellipsis_at_most_two current total :
  (length (List.filter isEllipsis (pageNumbers current total)) <= 2)%nat.
Proof.
  unfold pageNumbers. etransitivity; [apply ellipsis_bound|].
  change 2%nat with (length [current - 3; current + 3]).
  apply submseteq_length, NoDup_submseteq.
  - apply NoDup_filter, NoDup_seqZ.
  - intros i [Hi _]%list_elem_of_filter.
    rewrite !elem_of_cons. lia.
Qed.

(** The page controls, when there are any: a link for the first page, for
    the last page and for every page within two of the current one, and for
    no other; the link of the current page is the active one; at most two
    markers of skipped pages. Every link leads to a page that [goToPage]
    accepts. With the current page in range, the previous and next buttons
    lead to an accepted page unless they are disabled, and then a click
    leaves the state as it is. *)
Theorem renderPagination_controls (s : State) (items : list PageItem) :
  fst <$> renderPagination s = Some items ->
  let current := currentPage s in
  let total := totalPages s in
  (forall i active,
     PageLink i active ∈ items
     <-> 1 <= i <= total
         /\ (i = 1 \/ i = total \/ Z.abs (i - current) <= 2)
         /\ active = (i =? current))
  /\ (forall i active,
        PageLink i active ∈ items ->
        goToPage i s = set_currentPage i s)
  /\ (length (List.filter isEllipsis items) <= 2)%nat
  /\ (forall disabled target,
        Previous disabled target ∈ items
        <-> disabled = (current =? 1) /\ target = current - 1)
  /\ (forall disabled target,
        Next disabled target ∈ items
        <-> disabled = (current =? total) /\ target = current + 1)
  /\ (1 <= current <= total ->
      goToPage (current - 1) s
      = (if current =? 1 then s else set_currentPage (current - 1) s)
      /\ goToPage (current + 1) s
         = (if current =? total then s else set_currentPage (current + 1) s)).
Proof.
  rewrite renderPagination_items. intros H current total.
  destruct (Z.leb_spec (totalPages s) 1) as [|Ht]; [discriminate|].
  injection H as <-. fold current total in Ht |- *.
  assert (forall i active,
            PageLink i active ∈ pageNumbers current total
            <-> 1 <= i <= total
                /\ (i = 1 \/ i = total \/ Z.abs (i - current) <= 2)
                /\ active = (i =? current)) as Hlink.
  { intros i active. unfold pageNumbers. rewrite list_elem_of_bind. split.
    - intros (j & Hin & Hj%elem_of_seqZ).
      apply elem_of_pageNumber in Hin as [[E ?]|[E _]]; [|discriminate].
      injection E as -> ->. split; [lia|]. auto.
    - intros (Hi & Hw & ->). exists i. split; [|apply elem_of_seqZ; lia].
      apply elem_of_pageNumber. auto. }
  assert (forall item, item ∈ pageNumbers current total ->
                       (exists i b, item = PageLink i b) \/ item = Ellipsis)
    as Hkind.
  { intros item. unfold pageNumbers. rewrite list_elem_of_bind.
    intros (j & Hin & _).
    apply elem_of_pageNumber in Hin as [[-> _]|[-> _]]; eauto. }
  split; [|split; [|split; [|split; [|split]]]].
  - intros i active.
    rewrite elem_of_cons, elem_of_app, list_elem_of_singleton, Hlink.
    split; [intros [?|[?|?]]; (discriminate || assumption) | auto].
  - intros i active.
    rewrite elem_of_cons, elem_of_app, list_elem_of_singleton, Hlink.
    intros [?|[(Hi & _)|?]]; try discriminate.
    apply goToPage_guard. exact Hi.
  - cbn [List.filter isEllipsis]. rewrite List.filter_app, length_app. simpl.
    pose proof (ellipsis_at_most_two current total). lia.
  - intros disabled target.
    rewrite elem_of_cons, elem_of_app, list_elem_of_singleton.
    split.
    + intros [E|[Hin|E]]; try discriminate; [injection E; auto|].
      apply Hkind in Hin as [(i & b & ?)|?]; discriminate.
    + intros [-> ->]. auto.
  - intros disabled target.
    rewrite elem_of_cons, elem_of_app, list_elem_of_singleton.
    split.
    + intros [E|[Hin|E]]; try discriminate; [|injection E; auto].
      apply Hkind in Hin as [(i & b & ?)|?]; discriminate.
    + intros [-> ->]. auto.
  - intros Hc. destruct (goToPage_guard (current - 1) s) as [Hno Hyes].
    destruct (goToPage_guard (current + 1) s) as [Hno' Hyes'].
    fold total in Hno, Hyes, Hno', Hyes'. split.
    + destruct (Z.eqb_spec current 1); [apply Hno | apply Hyes]; lia.
    + destruct (Z.eqb_spec current total); [apply Hno' | apply Hyes']; lia.
Qed.

Lemma renderPagination_controls_witness :
  let s := mkState [] (replicate 95 Sample.walk) 5 (Sample.form "")
                   Sample.blank [] in
  exists items,
    fst <$> renderPagination s = Some items
    /\ (PageLink 10 false ∈ items)
    /\ goToPage 7 s = set_currentPage 7 s
    /\ (length (List.filter isEllipsis items) <= 2)%nat.
Proof.
  intros s. eexists. split; [reflexivity|].
  match goal with
  | |- context [PageLink 10 false ∈ ?l] =>
      destruct (renderPagination_controls s l eq_refl)
        as (Hlink & Hgo & Hcount & _)
  end.
  split; [apply Hlink; vm_compute; intuition congruence|].
  split; [|exact Hcount].
  apply (Hgo 7 false). apply Hlink. vm_compute. intuition congruence.
Defined.

(** ** The filtered list follows the todos and the inputs *)

(** [applyFilters] computes the filtered list from the todos and the three
    inputs alone and goes to page 1; the todos, the inputs and the alerts
    stay, so applying it again changes nothing. *)
Theorem applyFilters_idempotent (s : State) :
  applyFilters (applyFilters s) = applyFilters s
  /\ inSync (applyFilters s)
  /\ currentPage (applyFilters s) = 1
  /\ todos (applyFilters s) = todos s
  /\ inputs (applyFilters s) = inputs s
  /\ alerts (applyFilters s) = alerts s.
Proof. repeat split. Qed.

Section Stable.

(** A property of the todos, the filtered list, the current page and the
    three filter inputs that [applyFilters] establishes and [goToPage]
    keeps. *)
Variable P : State -> Prop.
Hypothesis P_ext : forall s s',
  todos s' = todos s -> filteredTodos s' = filteredTodos s ->
  currentPage s' = currentPage s ->
  searchInput (inputs s') = searchInput (inputs s) ->
  fromDate (inputs s') = fromDate (inputs s) ->
  toDate (inputs s') = toDate (inputs s) ->
  P s -> P s'.
Hypothesis P_applyFilters : forall s, P (applyFilters s).
Hypothesis P_goToPage : forall page s, P s -> P (goToPage page s).
Hypothesis P_new : forall i a, P (mkState [] [] 1 i a []).

Ltac stable_solve :=
  first
    [ assumption
    | apply P_goToPage; assumption
    | match goal with
      | |- P ?t =>
          match t with
          | context [applyFilters ?x] =>
              apply (P_ext (applyFilters x));
              [reflexivity.. | apply P_applyFilters]
          end
      end
    | eapply P_ext; [..|eassumption]; reflexivity ].

Lemma stable_loadTodos s : P s -> always P (loadTodos s).
Proof.
  intros Hs. unfold always, loadTodos. run_m.
  split; [stable_solve|]. intros [e|listed] s' Hs'; run_m; [stable_solve|].
  apply post_catch, post_bind, post_mapM_loaded; [exact Hs'|].
  intros s'' built Hs'' _. run_m. stable_solve.
Qed.

Lemma stable_addTodo s : P s -> always P (addTodo s).
Proof.
  intros Hs. unfold always, addTodo. run_m.
  destruct (JsString.truthy _); run_m; [|stable_solve].
  split; [stable_solve|]. intros [e|data] s' Hs'; run_m; [stable_solve|].
  split; [stable_solve|]. intros today s'' Hs''. stable_solve.
Qed.

Lemma stable_toggleTodo todoId s : P s -> always P (toggleTodo todoId s).
Proof.
  intros Hs. unfold always, toggleTodo. run_m.
  destruct (list_find _ _) as [[i t]|]; run_m; [|stable_solve].
  split; [stable_solve|]. intros [e|[]] s' Hs'; run_m; stable_solve.
Qed.

Lemma stable_deleteTodo todoId s : P s -> always P (deleteTodo todoId s).
Proof.
  intros Hs. unfold always, deleteTodo. run_m.
  split; [stable_solve|]. intros [|] s' Hs'; run_m; [|stable_solve].
  split; [stable_solve|]. intros [e|[]] s'' Hs''; run_m; stable_solve.
Qed.

Lemma stable_handle ev s : P s -> always P (handle ev s).
Proof.
  intros Hs. destruct ev; simpl;
    auto using stable_loadTodos, stable_addTodo, stable_toggleTodo,
               stable_deleteTodo;
    unfold always; run_m; unfold clearFilters; stable_solve.
Qed.

Lemma stable_reachable p : Reachable p -> P (st p).
Proof.
  intros H. apply (reachable_keeps P); [|exact stable_handle|exact H].
  intros i a. apply stable_loadTodos, P_new.
Qed.

End Stable.

Lemma inSync_ext s s' :
  todos s' = todos s -> filteredTodos s' = filteredTodos s ->
  currentPage s' = currentPage s ->
  searchInput (inputs s') = searchInput (inputs s) ->
  fromDate (inputs s') = fromDate (inputs s) ->
  toDate (inputs s') = toDate (inputs s) ->
  inSync s -> inSync s'.
Proof. unfold inSync. intros -> -> _ -> -> ->. auto. Qed.

Lemma inSync_goToPage page s : inSync s -> inSync (goToPage page s).
Proof. unfold goToPage. destruct (_ || _); auto. Qed.

Lemma reachable_inSync (p : Page) : Reachable p -> inSync (st p).
Proof.
  apply (stable_reachable inSync inSync_ext); auto using inSync_goToPage.
  - intros s. reflexivity.
  - intros i a. reflexivity.
Qed.

Lemma inSync_selects (s : State) :
  inSync s ->
  selects (passes (searchInput (inputs s)) (fromDate (inputs s))
                  (toDate (inputs s)))
          (todos s) (filteredTodos s).
Proof.
  intros Hsync. rewrite Hsync. apply selects_filter. intros todo.
  apply matchesFilters_passes.
Qed.

Lemma inSync_sublist (s : State) :
  inSync s -> sublist (filteredTodos s) (todos s).
Proof. intros H. exact (selects_sublist _ _ _ (inSync_selects s H)). Qed.

(** With the current page in range, it is empty only when the filtered list
    is. *)
Lemma pageInRange_nonempty (s : State) :
  pageInRange s -> filteredTodos s <> [] -> getPaginatedTodos s <> [].
Proof.
  unfold pageInRange, pageCount. intros Hr Hne.
  rewrite <- pageOf_current. apply pageOf_nonempty.
  pose proof (totalPages_empty s). pose proof (totalPages_nonneg s).
  assert (totalPages s <> 0) by tauto. lia.
Qed.



(** ** The list that is shown *)

Lemma renderTodos_cases (s : State) :
  (getPaginatedTodos s = [] /\ renderTodos s = EmptyState)
  \/ (getPaginatedTodos s <> []
      /\ renderTodos s = Rows (todoRow <$> getPaginatedTodos s)).
Proof.
  unfold renderTodos. destruct (getPaginatedTodos s) as [|todo page].
  - left. split; reflexivity.
  - right. split; [discriminate | reflexivity].
Qed.

(** In every state the program reaches, [renderTodos] shows the empty state
    exactly when no todo passes the filter. Otherwise it shows between one
    and ten items, one for each todo of the current page in order; the
    checkbox and the delete button of an item carry the id of its todo,
    which is an id of the store, and the title that is written has no
    character that could open a tag or close an attribute. *)
Theorem renderTodos_reachable (p : Page) :
  Reachable p ->
  let s := st p in
  (renderTodos s = EmptyState <-> filteredTodos s = [])
  /\ forall rows,
       renderTodos s = Rows rows ->
       (1 <= length rows <= 10)%nat
       /\ TodoRow.onchange <$> rows = Todo.id <$> getPaginatedTodos s
       /\ Forall (fun row =>
                    TodoRow.onchange row ∈ ids s
                    /\ TodoRow.onclick row = TodoRow.onchange row
                    /\ Forall (fun c => c <> "<" /\ c <> ">"
                                        /\ c <> "034" /\ c <> "'")%char
                              (chars (TodoRow.titleHtml row)))
                 rows.
Proof.
  intros Hp s.
  pose proof (inSync_sublist s (reachable_inSync p Hp)) as Hsub.
  pose proof (reachable_pageInRange p Hp) as Hr. fold s in Hr.
  pose proof (pageInRange_nonempty s Hr) as Hne.
  unfold pageInRange, pageCount in Hr.
  assert (sublist (getPaginatedTodos s) (filteredTodos s)) as Hpage.
  { rewrite <- pageOf_current, pageOf_block by lia.
    etransitivity; [apply sublist_take | apply sublist_drop]. }
  split.
  - destruct (renderTodos_cases s) as [[He ->]|[Hn ->]].
    + split; [|reflexivity]. intros _.
      destruct (filteredTodos s) eqn:E; [reflexivity|].
      exfalso. apply Hne; [discriminate | exact He].
    + split; [discriminate|]. intros E. exfalso. apply Hn.
      rewrite E in Hpage. now apply sublist_nil_r in Hpage.
  - intros rows Hrows.
    destruct (renderTodos_cases s) as [[_ E]|[Hn E]];
      rewrite E in Hrows; [discriminate|]. injection Hrows as <-.
    split; [|split].
    + rewrite length_fmap.
      pose proof (pageOf_size s (currentPage s) ltac:(lia)) as Hten.
      rewrite pageOf_current in Hten.
      destruct (getPaginatedTodos s); [contradiction | simpl in *; lia].
    + rewrite <- list_fmap_compose. reflexivity.
    + apply Forall_fmap, Forall_forall. intros todo Hin. simpl.
      split; [|split; [reflexivity|]].
      2: { rewrite chars_escapeHtml. apply Forall_bind, Forall_forall.
           intros c _. apply escapeChar_safe. }
      unfold ids. apply list_elem_of_fmap. exists todo. split; [reflexivity|].
      eapply elem_of_sublist; [exact Hin|].
      etransitivity; [exact Hpage | exact Hsub].
Qed.

Lemma renderTodos_reachable_witness :
  let s := st Sample.searched in
  exists rows,
    renderTodos s = Rows rows
    /\ TodoRow.titleHtml <$> rows
       = replicate 6 "&lt;b&gt;Tea &amp; scones&lt;/b&gt;"
    /\ (1 <= length rows <= 10)%nat
    /\ TodoRow.onchange <$> rows = Todo.id <$> getPaginatedTodos s
    /\ Forall (fun row =>
                 TodoRow.onchange row ∈ ids s
                 /\ TodoRow.onclick row = TodoRow.onchange row
                 /\ Forall (fun c => c <> "<" /\ c <> ">"
                                     /\ c <> "034" /\ c <> "'")%char
                           (chars (TodoRow.titleHtml row)))
              rows.
Proof.
  intros s. eexists. split; [vm_compute; reflexivity|].
  split; [reflexivity|].
  destruct (renderTodos_reachable Sample.searched searched_reachable)
    as [_ Hrows].
  apply Hrows. reflexivity.
Defined.

(** ** The statistics *)


(** The number of completed todos of a list. *)
Lemma completed_insert (l : list Todo.t) i todo :
  l !! i = Some todo ->
  Z.of_nat (length (List.filter (fun t => Todo.completed t)
                                (<[i := toggled todo]> l)))
  = Z.of_nat (length (List.filter (fun t => Todo.completed t) l))
    + (if Todo.completed todo then -1 else 1).
Proof.
  intros Hi. rewrite insert_take_drop by (eapply lookup_lt_Some, Hi).
  rewrite <- (take_drop_middle l i todo Hi) at 3.
  rewrite !List.filter_app, !length_app. simpl.
  destruct (Todo.completed todo); simpl; lia.
Qed.


(** In every state the program reaches, the number of filtered todos is at
    most the total, and is the total when the three filter inputs are
    empty. *)
Theorem updateStatistics_filtered (p : Page) :
  Reachable p ->
  let s := st p in
  let n := updateStatistics s in
  Statistics.filteredCount n <= Statistics.totalTodos n
  /\ (searchInput (inputs s) = "" -> fromDate (inputs s) = "" ->
      toDate (inputs s) = "" ->
      Statistics.filteredCount n = Statistics.totalTodos n).
Proof.
  intros Hp s n.
  pose proof (reachable_inSync p Hp) as Hsync. fold s in Hsync.
  pose proof (inSync_sublist s Hsync) as Hsub. simpl. split.
  - apply sublist_length in Hsub. lia.
  - intros Hs Hf Ht. rewrite Hsync, Hs, Hf, Ht.
    now rewrite (filter_no_filters (todos s)).
Qed.

Lemma updateStatistics_filtered_witness :
  let searched := updateStatistics (st Sample.searched) in
  let loaded := updateStatistics (st Sample.loaded) in
  Statistics.filteredCount searched = 6
  /\ Statistics.filteredCount searched <= Statistics.totalTodos searched
  /\ Statistics.totalTodos loaded = 12
  /\ Statistics.filteredCount loaded = Statistics.totalTodos loaded.
Proof.
  intros searched loaded.
  destruct (updateStatistics_filtered Sample.searched searched_reachable)
    as [Hle _].
  destruct (updateStatistics_filtered Sample.loaded loaded_reachable)
    as [_ Heq].
  split; [reflexivity|]. split; [exact Hle|]. split; [reflexivity|].
  apply Heq; reflexivity.
Defined.

(** A toggle of a todo that is in the store moves one todo between the
    completed and the pending: the number of completed todos goes up by one
    when the todo was pending and down by one when it was completed, and the
    total stays. *)
Theorem toggleTodo_statistics (s : State) (todoId : Z) (w : World) (n : nat)
    (i : nat) (todo : Todo.t) :
  list_find (fun todo => Todo.id todo = todoId) (todos s) = Some (i, todo) ->
  let before := updateStatistics s in
  let after := updateStatistics (fst (run w n (toggleTodo todoId s))) in
  Statistics.totalTodos after = Statistics.totalTodos before
  /\ Statistics.completedTodos after
     = Statistics.completedTodos before
       + (if Todo.completed todo then -1 else 1)
  /\ Statistics.pendingTodos after
     = Statistics.pendingTodos before
       + (if Todo.completed todo then 1 else -1).
Proof.
  intros Hf. simpl. rewrite toggleTodo_run, Hf.
  apply list_find_Some in Hf as (Hi & _).
  rewrite (completed_insert _ _ _ Hi), length_insert.
  destruct (Todo.completed todo); lia.
Qed.

Lemma toggleTodo_statistics_witness :
  let before := updateStatistics Sample.store in
  let after :=
    updateStatistics (fst (run Sample.offline 0 (toggleTodo 2 Sample.store))) in
  Statistics.totalTodos after = Statistics.totalTodos before
  /\ Statistics.completedTodos after
     = Statistics.completedTodos before
       + (if Todo.completed Sample.read then -1 else 1)
  /\ Statistics.pendingTodos after
     = Statistics.pendingTodos before
       + (if Todo.completed Sample.read then 1 else -1).
Proof.
  apply (toggleTodo_statistics Sample.store 2 Sample.offline 0 1 Sample.read).
  reflexivity.
Defined.

(** ** The alerts *)

Ltac alert_solve :=
  first
    [ assumption
    | reflexivity
    | unfold oneAlert in *; simpl in *;
      first [assumption | reflexivity | apply andb_false_r] ].

Lemma alert_loadTodos s : always oneAlert (loadTodos s).
Proof.
  unfold always, loadTodos. run_m.
  split; [alert_solve|]. intros [e|listed] s' Hs'; run_m; [alert_solve|].
  apply post_catch, post_bind, post_mapM_loaded; [exact Hs'|].
  intros s'' built Hs'' _. run_m. alert_solve.
Qed.

Lemma alert_addTodo s : oneAlert s -> always oneAlert (addTodo s).
Proof.
  intros Hs. unfold always, addTodo. run_m.
  destruct (JsString.truthy _); run_m; [|alert_solve].
  split; [alert_solve|]. intros [e|data] s' Hs'; run_m; [alert_solve|].
  split; [alert_solve|]. intros today s'' Hs''. alert_solve.
Qed.

Lemma alert_toggleTodo todoId s :
  oneAlert s -> always oneAlert (toggleTodo todoId s).
Proof.
  intros Hs. unfold always, toggleTodo. run_m.
  destruct (list_find _ _) as [[i t]|]; run_m; [|alert_solve].
  split; [alert_solve|]. intros [e|[]] s' Hs'; run_m; alert_solve.
Qed.

Lemma alert_deleteTodo todoId s :
  oneAlert s -> always oneAlert (deleteTodo todoId s).
Proof.
  intros Hs. unfold always, deleteTodo. run_m.
  split; [alert_solve|]. intros [|] s' Hs'; run_m; [|alert_solve].
  split; [alert_solve|]. intros [e|[]] s'' Hs''; run_m; alert_solve.
Qed.

Lemma alert_handle ev s : oneAlert s -> always oneAlert (handle ev s).
Proof.
  intros Hs. destruct ev; simpl;
    auto using alert_loadTodos, alert_addTodo, alert_toggleTodo,
               alert_deleteTodo;
    unfold always; run_m; unfold clearFilters, goToPage;
    try destruct (_ || _); alert_solve.
Qed.

(** In every state the program reaches, whatever the document showed at the
    start, the error alert and the success alert are never shown together:
    each of [showError], [showSuccess] and [showLoading] hides what the
    other shows. *)
Theorem reachable_oneAlert (p : Page) :
  Reachable p ->
  ~ (errorAlert (alerts (st p)) = true /\ successAlert (alerts (st p)) = true).
Proof.
  intros Hp.
  assert (oneAlert (st p)) as H.
  { apply (reachable_keeps oneAlert); [|exact alert_handle|exact Hp].
    intros i a. apply alert_loadTodos. }
  unfold oneAlert in H. intros [He Hs]. rewrite He, Hs in H. discriminate.
Qed.

Lemma reachable_oneAlert_witness :
  errorAlert Sample.noisy = true
  /\ successAlert Sample.noisy = true
  /\ errorAlert (alerts (st Sample.alarmed)) = true
  /\ ~ (errorAlert (alerts (st Sample.alarmed)) = true
        /\ successAlert (alerts (st Sample.alarmed)) = true).
Proof.
  split; [reflexivity|]. split; [reflexivity|]. split; [reflexivity|].
  apply (reachable_oneAlert Sample.alarmed alarmed_reachable).
Defined.

(** ** No handler throws *)

Lemma returns_loadTodos s : returns (loadTodos s).
Proof.
  unfold returns, finally, loadTodos. run_m.
  split; [exact I|]. intros [e|listed] s' _; run_m; [eauto|].
  apply post_catch, post_bind, post_mapM_loaded; [exact I|].
  intros s'' built _ _. run_m. eauto.
Qed.

(** No run of a handler of the page ends in an error: every rejection of a
    request, in [loadTodos], [addTodo], [toggleTodo] and [deleteTodo], is
    caught inside the method. *)
Theorem handle_returns (ev : Event) (s : State) : returns (handle ev s).
Proof.
  destruct ev; simpl; try apply returns_loadTodos;
    unfold returns, finally, addTodo, toggleTodo, deleteTodo; run_m;
    eauto.
  - destruct (JsString.truthy _); run_m; [|eauto].
    split; [exact I|]. intros [e|data] s' _; run_m; [eauto|].
    split; [exact I|]. intros today s'' _. eauto.
  - destruct (list_find _ _) as [[i t]|]; run_m; [|eauto].
    split; [exact I|]. intros [e|[]] s' _; run_m; eauto.
  - split; [exact I|]. intros [|] s' _; run_m; [|eauto].
    split; [exact I|]. intros [e|[]] s'' _; run_m; eauto.
Qed.

(** ** Loading *)

(** [loadTodos] shows the loading indicator, hides the two alerts and asks
    for the list. When the request is rejected, the todos, the filtered list
    and the current page stay as they are at that moment, the loading
    indicator is hidden and the error alert reports the failure. When a list
    arrives, the collection is replaced as a whole by one todo for each
    listed todo, in order and with its id, title, completed flag and user;
    the filtered list is computed anew, the page is 1 and the loading
    indicator is hidden. *)
Theorem loadTodos_outcome (s : State) :
  exists k,
    loadTodos s = Call (showLoading s) (AxiosGet apiUrl) k
    /\ loadingIndicator (alerts (showLoading s)) = true
    /\ errorAlert (alerts (showLoading s)) = false
    /\ successAlert (alerts (showLoading s)) = false
    /\ todos (showLoading s) = todos s
    /\ (forall e s', exists s'',
          k (inl e) s' = Done s'' tt
          /\ todos s'' = todos s'
          /\ filteredTodos s'' = filteredTodos s'
          /\ currentPage s'' = currentPage s'
          /\ loadingIndicator (alerts s'') = false
          /\ errorAlert (alerts s'') = true
          /\ errorMessage (alerts s'') = "Failed to load todos: " ++ e)
    /\ (forall listed s',
          finally (fun s'' o =>
                     o = inl tt
                     /\ Forall2
                          (fun todo t =>
                             Todo.id t = RemoteTodo.id todo
                             /\ Todo.title t = RemoteTodo.todo todo
                             /\ Todo.completed t = RemoteTodo.completed todo
                             /\ Todo.userId t = RemoteTodo.userId todo)
                          listed (todos s'')
                     /\ inSync s''
                     /\ currentPage s'' = 1
                     /\ loadingIndicator (alerts s'') = false)
                  (k (inr listed) s')).
Proof.
  unfold loadTodos. run_m. eexists. split; [reflexivity|].
  do 4 (split; [reflexivity|]). split.
  - intros e s'. eexists. repeat split.
  - intros listed s'. unfold finally. run_m.
    apply post_catch, post_bind, post_mapM_loaded; [exact I|].
    intros s'' built _ Hb. run_m. split; [reflexivity|].
    split; [|repeat split].
    simpl. induction Hb as [|todo t listed built [date ->] _ IH];
      constructor; [repeat split | exact IH].
Qed.

(** ** Adding and deleting *)

(** The todos after a whole run of [deleteTodo] that is confirmed. *)
Lemma deleteTodo_run (w : World) (n : nat) (s : State) (todoId : Z) :
  w n _ (Confirm "Are you sure you want to delete this todo?") = true ->
  todos (fst (run w n (deleteTodo todoId s)))
  = List.filter (fun todo => negb (Todo.id todo =? todoId)) (todos s).
Proof.
  intros Hw. unfold deleteTodo. run_m. cbn [run]. rewrite Hw. run_m.
  cbn [run]. destruct (w (S n) _ _) as [e|[]]; reflexivity.
Qed.

Lemma filter_id_shorter (l : list Todo.t) (todoId : Z) :
  todoId ∈ Todo.id <$> l ->
  (length (List.filter (fun todo => negb (Todo.id todo =? todoId)%Z) l)
   < length l)%nat.
Proof.
  intros (todo & Hid & Hin)%list_elem_of_fmap.
  induction Hin as [todo l|todo other l Hin IH]; simpl.
  - rewrite <- Hid, Z.eqb_refl. simpl.
    apply Nat.lt_succ_r, List.filter_length_le.
  - destruct (negb (Todo.id other =? todoId)); simpl;
      [apply -> Nat.succ_lt_mono; exact (IH Hid)
      | apply Nat.lt_lt_succ_r, IH, Hid].
Qed.

(** Adding a todo and then deleting the id it got gives the collection back
    when no todo had that id. When a todo had it, that todo goes with the
    new one, and the collection is shorter than it was. *)
Theorem add_then_delete (w1 w2 : World) (n1 n2 : nat) (s : State)
    (data : Added.t) :
  JsString.trim (todoTitle (inputs s)) <> "" ->
  w1 n1 _ (AxiosPost (apiUrl ++ "/add") (submitted s)) = inr data ->
  w2 n2 _ (Confirm "Are you sure you want to delete this todo?") = true ->
  let s1 := fst (run w1 n1 (addTodo s)) in
  let newId := orNumber (Added.id data) (Z.of_nat (length (todos s)) + 1) in
  let s2 := fst (run w2 n2 (deleteTodo newId s1)) in
  head (ids s1) = Some newId
  /\ (newId ∉ ids s -> todos s2 = todos s)
  /\ (newId ∈ ids s -> (length (todos s2) < length (todos s))%nat).
Proof.
  intros Ht Hw1 Hw2 s1 newId s2.
  assert (todos s1 = addedTodo data (length (todos s))
                       (JsString.trim (todoTitle (inputs s)))
                       (w1 (S n1) _ Today) :: todos s) as H1
    by (apply addTodo_run; assumption).
  assert (todos s2
          = List.filter (fun todo => negb (Todo.id todo =? newId)) (todos s))
    as H2.
  { unfold s2. rewrite deleteTodo_run, H1 by exact Hw2. simpl.
    fold newId. now rewrite Z.eqb_refl. }
  split; [unfold ids; rewrite H1; reflexivity|]. split.
  - intros Hfresh. rewrite H2. now apply filter_id_absent.
  - intros Hin. rewrite H2. now apply filter_id_shorter.
Qed.

Lemma add_then_delete_witness :
  let w := Sample.service (Sample.echo 255) in
  let s1 := fst (run w 0 (addTodo Sample.store)) in
  let newId :=
    orNumber (Added.id (Sample.echo 255 (submitted Sample.store)))
             (Z.of_nat (length (todos Sample.store)) + 1) in
  let s2 := fst (run w 0 (deleteTodo newId s1)) in
  todos s2 = todos Sample.store.
Proof.
  intros w s1 newId s2.
  destruct (add_then_delete w w 0 0 Sample.store
              (Sample.echo 255 (submitted Sample.store)))
    as (_ & H & _); [discriminate | reflexivity | reflexivity |].
  apply H. apply (bool_decide_unpack _); vm_compute; exact I.
Defined.

Lemma filter_filter_id (l : list Todo.t) (todoId : Z) :
  List.filter (fun todo => negb (Todo.id todo =? todoId))
              (List.filter (fun todo => negb (Todo.id todo =? todoId)) l)
  = List.filter (fun todo => negb (Todo.id todo =? todoId)) l.
Proof.
  induction l as [|todo l IH]; [reflexivity|]. simpl.
  destruct (negb (Todo.id todo =? todoId)) eqn:E; simpl;
    [rewrite E, IH; reflexivity | exact IH].
Qed.

(** After a confirmed delete the id is gone from the store: a toggle of it
    does nothing, and a second delete leaves the collection as the first
    left it. *)
Theorem deleteTodo_then (w1 w2 : World) (n1 n2 : nat) (s : State)
    (todoId : Z) :
  w1 n1 _ (Confirm "Are you sure you want to delete this todo?") = true ->
  let s1 := fst (run w1 n1 (deleteTodo todoId s)) in
  (todoId ∉ ids s1)
  /\ toggleTodo todoId s1 = Done s1 tt
  /\ todos (fst (run w2 n2 (deleteTodo todoId s1))) = todos s1.
Proof.
  intros Hw s1.
  assert (todos s1
          = List.filter (fun todo => negb (Todo.id todo =? todoId)) (todos s))
    as H1 by (apply deleteTodo_run; exact Hw).
  assert (todoId ∉ ids s1) as Habsent.
  { unfold ids. rewrite H1.
    intros (todo & Hid & Hin%list_elem_of_In)%list_elem_of_fmap.
    apply List.filter_In in Hin as [_ Hne].
    rewrite Hid, Z.eqb_refl in Hne. discriminate. }
  split; [exact Habsent|]. split.
  - unfold toggleTodo. run_m. unfold ids in Habsent.
    now rewrite (find_absent _ _ Habsent).
  - unfold deleteTodo. run_m. cbn [run].
    destruct (w2 n2 _ _); run_m; cbn [run]; [|reflexivity].
    destruct (w2 (S n2) _ _) as [e|[]]; simpl;
      apply filter_id_absent; exact Habsent.
Qed.

Lemma deleteTodo_then_witness :
  let s1 := fst (run Sample.offline 0 (deleteTodo 2 Sample.store)) in
  (2 ∉ ids s1)
  /\ toggleTodo 2 s1 = Done s1 tt
  /\ todos (fst (run Sample.offline 0 (deleteTodo 2 s1))) = todos s1.
Proof.
  apply (deleteTodo_then Sample.offline Sample.offline 0 0 Sample.store 2).
  reflexivity.
Defined.

(** ** The loading indicator *)

Lemma endsIn_bind {A B} (Q : State -> Prop) (r : Res A) (f : A -> M B) :
  endsIn (fun _ => True) r ->
  (forall a s, endsIn Q (f a s)) ->
  (forall s, Q s) \/ post (fun _ => True)
                          (fun _ o => exists a, o = inl a) r ->
  endsIn Q (bindRes r f).
Proof.
  intros Hr Hf Hq. induction r as [s a|s e|X s eff k IH]; simpl in *.
  - apply Hf.
  - destruct Hq as [Hq|[a Ha]]; [apply Hq | discriminate].
  - destruct Hr as [Hs Hk]. split; [exact Hs|]. intros x s'.
    apply IH; [apply Hk|]. destruct Hq as [Hq|[_ Hq]]; auto.
Qed.

Lemma endsIn_mapM_loaded (listed : list RemoteTodo.t) (s : State) :
  endsIn (fun _ => True)
         (mapM (fun todo => createdAt ← generateRandomDate;
                            mret (loadedTodo todo createdAt)) listed s)
  /\ post (fun _ => True) (fun _ o => exists a, o = inl a)
          (mapM (fun todo => createdAt ← generateRandomDate;
                             mret (loadedTodo todo createdAt)) listed s).
Proof.
  split.
  - revert s.
    induction listed as [|todo listed IH]; intros s; simpl; [exact I|].
    split; [reflexivity|]. intros date s'.
    apply endsIn_bind; [apply IH | intros; exact I | left; auto].
  - apply post_mapM_loaded; [exact I | eauto].
Qed.

Lemma endsIn_catch_returns {A} (Q : State -> Prop) (r : Res A)
    (h : Error -> M A) :
  endsIn Q r ->
  post (fun _ => True) (fun _ o => exists a, o = inl a) r ->
  endsIn Q (catchRes r h).
Proof.
  intros Hr Hp. induction r as [s a|s e|X s eff k IH]; simpl in *.
  - exact Hr.
  - destruct Hp as [a Ha]. discriminate.
  - destruct Hr as [Hs Hk]. split; [exact Hs|]. intros x s'.
    apply IH; [apply Hk | apply Hp; exact I].
Qed.

Lemma post_bind_returns {A B} (r : Res A) (f : A -> M B) :
  post (fun _ => True) (fun _ o => exists a, o = inl a) r ->
  (forall a s, post (fun _ => True) (fun _ o => exists b, o = inl b) (f a s)) ->
  post (fun _ => True) (fun _ o => exists b, o = inl b) (bindRes r f).
Proof.
  intros Hr Hf. apply post_bind. eapply post_mono; [|exact Hr].
  intros s o [a ->]. apply Hf.
Qed.

Lemma spinner_loadTodos s :
  spinner (loadingIndicator (alerts s)) (loadTodos s).
Proof.
  unfold loadTodos. run_m. cbn [spinner awaited isLoad].
  intros [e|listed] s'; run_m; [reflexivity|].
  destruct (endsIn_mapM_loaded listed s') as [He Hp].
  apply endsIn_catch_returns.
  - apply endsIn_bind; [exact He | | right; exact Hp].
    intros built s''. reflexivity.
  - apply post_bind_returns; [exact Hp|]. intros built s''. simpl. eauto.
Qed.

Lemma spinner_addTodo s :
  spinner (loadingIndicator (alerts s)) (addTodo s).
Proof.
  unfold addTodo. run_m.
  destruct (JsString.truthy (JsString.trim (todoTitle (inputs s)))); run_m;
    cbn [spinner awaited isLoad]; [|reflexivity].
  intros [e|data] s'; run_m; cbn [endsIn awaited]; [reflexivity|].
  split; [reflexivity|]. intros today s''. reflexivity.
Qed.

Lemma spinner_toggleTodo todoId s :
  spinner (loadingIndicator (alerts s)) (toggleTodo todoId s).
Proof.
  unfold toggleTodo. run_m.
  destruct (list_find (fun todo => Todo.id todo = todoId) (todos s))
    as [[i t]|]; run_m; cbn [spinner awaited isLoad]; [|reflexivity].
  split; [reflexivity|]. intros [e|[]] s'; reflexivity.
Qed.

Lemma spinner_deleteTodo todoId s :
  spinner (loadingIndicator (alerts s)) (deleteTodo todoId s).
Proof.
  unfold deleteTodo. run_m. cbn [spinner awaited isLoad].
  intros [|]; run_m; cbn [spinner awaited isLoad]; [|reflexivity].
  split; [reflexivity|]. intros [e|[]] s'; reflexivity.
Qed.

Lemma spinner_handle ev s :
  spinner (loadingIndicator (alerts s)) (handle ev s).
Proof.
  destruct ev; cbn [handle].
  - apply spinner_addTodo.
  - reflexivity.
  - reflexivity.
  - reflexivity.
  - reflexivity.
  - apply spinner_loadTodos.
  - apply spinner_toggleTodo.
  - apply spinner_deleteTodo.
  - unfold modify, goToPage. simpl. destruct (_ || _); reflexivity.
  - reflexivity.
  - reflexivity.
  - reflexivity.
Qed.

Lemma settles_endsIn (Q : State -> Prop) pend r p :
  endsIn Q r -> settles pend r p -> pending p = pend /\ Q (st p).
Proof.
  intros Hr Hs. induction Hs as [s|s e|X eff s k x p _ _ IH|X eff s k Ha];
    simpl in *; auto.
  - apply IH, Hr.
  - destruct Hr as [Hn _]. congruence.
Qed.

Lemma settles_spinner shown pend r p :
  spinner shown r -> settles pend r p ->
  Forall settlesSpinner pend ->
  Forall settlesSpinner (pending p)
  /\ (forallb (fun pd => negb (loadPending pd)) (pending p) = true ->
      forallb (fun pd => negb (loadPending pd)) pend = true
      /\ loadingIndicator (alerts (st p)) = shown).
Proof.
  intros Hr Hs Hp. induction Hs as [s|s e|X eff s k x p Ha _ IH|X eff s k Ha];
    simpl in *.
  - auto.
  - auto.
  - rewrite Ha in Hr. apply IH, Hr.
  - rewrite Ha in Hr. destruct (isLoad eff) eqn:El.
    + split; [|simpl; discriminate].
      constructor; [|exact Hp]. simpl. now rewrite El.
    + destruct Hr as [Hshown Hk]. split.
      * constructor; [|exact Hp]. simpl. now rewrite El.
      * simpl. auto.
Qed.

Lemma settles_awaitsLoad pend r p :
  awaitsLoad r -> settles pend r p ->
  forallb (fun pd => negb (loadPending pd)) (pending p) = false.
Proof.
  intros Hr Hs. induction Hs as [s|s e|X eff s k x p Ha _ IH|X eff s k Ha];
    simpl in *; try contradiction.
  - rewrite Ha in Hr. apply IH, Hr.
  - rewrite Ha in Hr. now rewrite Hr.
Qed.

Lemma awaitsLoad_newTodoApp i a : awaitsLoad (newTodoApp i a).
Proof. unfold newTodoApp, loadTodos. run_m. reflexivity. Qed.

(** In every state the program reaches, the loading indicator is hidden
    whenever neither the list nor an add is awaited: each of these requests
    hides it when its answer arrives, rejection or not, and nothing else
    shows it. *)
Theorem reachable_spinner (p : Page) :
  Reachable p ->
  forallb (fun pd => negb (loadPending pd)) (pending p) = true ->
  loadingIndicator (alerts (st p)) = false.
Proof.
  intros Hp.
  assert (Forall settlesSpinner (pending p)
          /\ (forallb (fun pd => negb (loadPending pd)) (pending p) = true ->
              loadingIndicator (alerts (st p)) = false)) as [_ H];
    [|exact H].
  induction Hp as [i a p Hs|p ev p' _ [IHp IHs] Hs
                  |p l1 X eff k l2 x p' _ [IHp IHs] Hl Hs].
  - destruct (settles_spinner _ _ _ _ (spinner_loadTodos _) Hs)
      as [Hf Hn]; [constructor|].
    split; [exact Hf|]. intros Hnone.
    rewrite (settles_awaitsLoad _ _ _ (awaitsLoad_newTodoApp i a) Hs)
      in Hnone.
    discriminate.
  - destruct (settles_spinner _ _ _ _ (spinner_handle ev (st p)) Hs IHp)
      as [Hf Hn].
    split; [exact Hf|]. intros Hnone. destruct (Hn Hnone) as [Hpend ->].
    apply IHs, Hpend.
  - rewrite Hl in IHp, IHs. apply Forall_app in IHp as [H1 H2].
    apply Forall_cons in H2 as [Hk H2].
    destruct (settles_endsIn _ _ _ _ (Hk x (st p)) Hs) as [Hpend Hq].
    split; [rewrite Hpend; apply Forall_app; auto|].
    rewrite Hpend, Hq. intros Hnone.
    destruct (isLoad eff) eqn:El; [reflexivity|].
    apply IHs. rewrite forallb_app in *. simpl. rewrite El. exact Hnone.
Qed.

Lemma failed_reachable : Reachable Sample.failed.
Proof.
  eapply (reach_answer Sample.started [] _ _ _ [] (inl "Network Error"));
    [exact started_reachable | reflexivity |].
  apply settles_done.
Qed.

Lemma reachable_spinner_witness :
  loadingIndicator (alerts (st Sample.failed)) = false.
Proof.
  apply (reachable_spinner Sample.failed failed_reachable). reflexivity.
Defined.
